(** * small_ranch_grid: loader and acre-grid tiler

    A shallow embedding of [get_geo_dataframe], [generate_grid] and
    [get_ctx_providers] from [small_ranch_grid.py], and the properties of
    the tiling and of the registry they compute.

    Python floats are IEEE-754 binary floats; they are modelled with the
    Standard Library's [spec_float].  Python ints are [Z].  GeoDataFrames are
    objects: [generate_grid] runs over a heap of frames, so that what it
    allocates and what it mutates is explicit.

    Left out: the progress lines both functions print, and the entry
    [supported_drivers['KML'] = 'r'] the loader writes into fiona's driver
    table before it reads. *)

From Stdlib Require Import ZArith QArith Qround List Lia Lqa.
From Stdlib Require Import Floats.SpecFloat.
From stdpp Require Import gmap strings list fin_maps.

Local Open Scope Z_scope.

(** ** Exceptions *)

(** What the code under study can raise: the two errors of [int()] and
    [range()], and whatever the geo libraries (fiona, geopandas, pyproj)
    raise, which the program never catches. *)
Inductive exception : Type :=
| ValueError
| OverflowError
| LibraryError (name : string).

Definition result (A : Type) : Type := exception + A.

Definition Ok {A} (a : A) : result A := inr a.
Definition Raise {A} (e : exception) : result A := inl e.

#[global] Instance result_ret : MRet result := fun A a => inr a.

#[global] Instance result_bind : MBind result := fun A B k r =>
  match r with
  | inl e => inl e
  | inr a => k a
  end.

(** ** Numbers *)

Module Float.

(** The integer [(-1)^s * m]. *)
Definition signed (s : bool) (m : positive) : Z :=
  if s then Z.neg m else Z.pos m.

(** The float that holds the integer [z] exactly. *)
Definition of_Z (z : Z) : spec_float :=
  match z with
  | Z0 => S754_zero false
  | Z.pos m => S754_finite false m 0
  | Z.neg m => S754_finite true m 0
  end.

(** [np.floor]: the largest integral float not above the argument; NaN,
    the infinities and the zeros are returned as they are.
    [Z.shiftl z e] is [z * 2^e] for [0 <= e] and the floor of [z / 2^-e]
    otherwise. *)
Definition np_floor (f : spec_float) : spec_float :=
  match f with
  | S754_finite s m e => of_Z (Z.shiftl (signed s m) e)
  | _ => f
  end.

(** [int(f)]: truncation toward zero; [ValueError] on NaN and
    [OverflowError] on an infinity. *)
Definition py_int (f : spec_float) : result Z :=
  match f with
  | S754_zero _ => Ok 0
  | S754_nan => Raise ValueError
  | S754_infinity _ => Raise OverflowError
  | S754_finite s m e =>
      let t := Z.shiftl (Z.pos m) e in
      Ok (if s then - t else t)
  end.

(** The rational a float denotes, when it denotes one. *)
Definition value (f : spec_float) : option Q :=
  match f with
  | S754_zero _ => Some 0%Q
  | S754_finite s m (Z.neg p) => Some (Qmake (signed s m) (2 ^ p)%positive)
  | S754_finite s m e => Some (inject_Z (signed s m * 2 ^ e))
  | _ => None
  end.

End Float.

(** ** [range(start, stop, step)] *)

(** The number of items, as CPython computes it. *)
Definition range_length (start stop step : Z) : Z :=
  if 0 <? step then
    if start <? stop then (stop - start - 1) / step + 1 else 0
  else
    if stop <? start then (start - stop - 1) / (- step) + 1 else 0.

(** [list(range(start, stop, step))]; a zero step is a [ValueError]. *)
Definition py_range (start stop step : Z) : result (list Z) :=
  if step =? 0 then Raise ValueError
  else Ok (map (fun i : nat => start + Z.of_nat i * step)
               (seq 0 (Z.to_nat (range_length start stop step)))).

(** ** Geometries and frames *)

(** A Python number: the grid's corners are built from ints, the
    coordinates read from a file are floats. *)
Inductive number : Type :=
| Int (z : Z)
| Float (f : spec_float).

Definition coord : Type := number * number.

Inductive Geometry : Type :=
| Polygon (shell : list coord)
| Point (c : coord).

(** A GeoDataFrame, reduced to its geometry column and its CRS. *)
Record GeoDataFrame : Type := mkGeoDataFrame {
  geometry : list Geometry;
  crs : option string;
}.

(** [gpd.GeoDataFrame()] *)
Definition empty_frame : GeoDataFrame :=
  {| geometry := []; crs := None |}.

(** ** The loader: [get_geo_dataframe]

    The loader rebinds one local name to the frames the libraries hand back
    and updates nothing in place, so frames are plain values here. *)

Section Loader.

(** [fiona.listlayers] and [gpd.read_file(..., driver='KML', layer=...)]:
    the vector source reader, which may raise. *)
Variable listlayers : string → result (list string).
Variable read_file : string → string → result GeoDataFrame.

(** The CRS pandas gives to the concatenation of two frames. *)
Variable append_crs : option string → option string → option string.

(** [gdf.append(s, ignore_index=True)]: the rows of [s] after those of
    [gdf], renumbered. *)
Definition append (gdf s : GeoDataFrame) : GeoDataFrame :=
  {| geometry := geometry gdf ++ geometry s;
     crs := append_crs (crs gdf) (crs s) |}.

(** The [for layer in ...] loop, from the frame accumulated so far. *)
Fixpoint read_layers (kml_file : string) (layers : list string)
    (gdf : GeoDataFrame) : result GeoDataFrame :=
  match layers with
  | [] => mret gdf
  | layer :: rest =>
      s ← read_file kml_file layer;
      read_layers kml_file rest (append gdf s)
  end.

Definition get_geo_dataframe (kml_file : string) : result GeoDataFrame :=
  layers ← listlayers kml_file;
  read_layers kml_file layers empty_frame.

End Loader.

(** ** The tiler: [generate_grid] *)

Definition meters_on_side_of_acre : Z := 64.

(** [total_bounds]: [(xmin, ymin, xmax, ymax)]. *)
Definition bounds : Type := spec_float * spec_float * spec_float * spec_float.

Definition int_bounds : Type := Z * Z * Z * Z.

(** [int(np.floor(.))] of the four bounds, in the order the code takes
    them. *)
Definition floor_bounds (b : bounds) : result int_bounds :=
  let '(xmin, ymin, xmax, ymax) := b in
  int_xmin ← Float.py_int (Float.np_floor xmin);
  int_ymin ← Float.py_int (Float.np_floor ymin);
  int_xmax ← Float.py_int (Float.np_floor xmax);
  int_ymax ← Float.py_int (Float.np_floor ymax);
  mret (int_xmin, int_ymin, int_xmax, int_ymax).

(** [cols = list(range(int_xmin, int_xmax, side))] *)
Definition grid_cols (side : Z) (ib : int_bounds) : result (list Z) :=
  let '(int_xmin, _, int_xmax, _) := ib in
  py_range int_xmin int_xmax side.

(** [rows = list(range(int_ymin, int_ymax, side)); rows.reverse()] *)
Definition grid_rows (side : Z) (ib : int_bounds) : result (list Z) :=
  let '(_, int_ymin, _, int_ymax) := ib in
  rows ← py_range int_ymin int_ymax side;
  mret (reverse rows).

(** The polygon appended for the origin [(x, y)]. *)
Definition square (side x y : Z) : Geometry :=
  Polygon [ (Int x, Int y);
            (Int (x + side), Int y);
            (Int (x + side), Int (y - side));
            (Int x, Int (y - side)) ].

(** The inner loop: one [polygons.append] per row origin. *)
Definition column_loop (side x : Z) (rows : list Z)
    (polygons : list Geometry) : list Geometry :=
  foldl (λ polygons y, polygons ++ [square side x y]) polygons rows.

(** The outer loop over the column origins, from [polygons = []]. *)
Definition grid_loops (side : Z) (cols rows : list Z) : list Geometry :=
  foldl (λ polygons x, column_loop side x rows polygons) [] cols.

(** Everything between [total_bounds] and the list [polygons], for a cell
    side [side] ([meters_on_side_of_acre] in the program). *)
Definition grid_polygons (side : Z) (b : bounds) : result (list Geometry) :=
  ib ← floor_bounds b;
  cols ← grid_cols side ib;
  rows ← grid_rows side ib;
  mret (grid_loops side cols rows).

(** *** Frames as objects *)

Definition loc : Type := positive.

(** A computation over the heap of frames; the heap survives an
    exception. *)
Definition M (A : Type) : Type :=
  gmap loc GeoDataFrame → result A * gmap loc GeoDataFrame.

#[global] Instance M_ret : MRet M := λ A a h, (inr a, h).

#[global] Instance M_bind : MBind M := λ A B k m h,
  match m h with
  | (inl e, h') => (inl e, h')
  | (inr a, h') => k a h'
  end.

Definition lift {A} (r : result A) : M A := λ h, (r, h).

(** A new object. *)
Definition new (d : GeoDataFrame) : M loc := λ h,
  let l := fresh (dom h) in (inr l, <[l := d]> h).

(** The frame a reference points to.  Python has no dangling reference; a
    location outside the heap is reported as a library error. *)
Definition deref (l : loc) : M GeoDataFrame := λ h,
  match h !! l with
  | Some d => (inr d, h)
  | None => (inl (LibraryError "unbound"), h)
  end.

(** [l.crs = c]: an update in place. *)
Definition set_crs (l : loc) (c : option string) : M unit := λ h,
  match h !! l with
  | Some d => (inr (), <[l := {| geometry := geometry d; crs := c |}]> h)
  | None => (inl (LibraryError "unbound"), h)
  end.

Section Tiler.

(** The reprojection capability behind [GeoDataFrame.to_crs], on the
    value of a frame; it may raise. *)
Variable reproject : GeoDataFrame → option string → result GeoDataFrame.

(** [GeoDataFrame.total_bounds] *)
Variable total_bounds : GeoDataFrame → bounds.

(** [gdf.to_crs(target)] with the default [inplace=False]: the
    reprojected frame is a new object. *)
Definition to_crs (gdf : loc) (target : option string) : M loc :=
  d ← deref gdf;
  d' ← lift (reproject d target);
  new d'.

Definition generate_grid (gdf : loc) : M loc :=
  ref ← deref gdf;
  let ref_crs := crs ref in
  meters_gdf ← to_crs gdf (Some "epsg:2773"%string);
  meters ← deref meters_gdf;
  polygons ← lift (grid_polygons meters_on_side_of_acre (total_bounds meters));
  grid_gdf ← new {| geometry := polygons; crs := None |};
  _ ← set_crs grid_gdf (Some "epsg:2773"%string);
  grid_gdf ← to_crs grid_gdf ref_crs;
  mret grid_gdf.

End Tiler.

(** ** The basemap registry: [get_ctx_providers]

    [ctx.providers] is a tree of dicts: a dict that has a 'url' is a tile
    provider, any other dict groups further dicts.  The values found in such
    a tree are strings, ints and dicts.  A dict keeps its items in insertion
    order, under distinct keys. *)

#[warnings="-register-all"] Inductive pyval : Type :=
| PStr (s : string)
| PInt (z : Z)
| PDict (items : list (string * pyval)).

(** What the traversal can raise. *)
Inductive provider_exception : Type :=
| KeyError (key : string)
| TypeError
| AttributeError.

(** [k in d], for a dict [d]. *)
Definition has_key (k : string) (items : list (string * pyval)) : bool :=
  existsb (λ kv, String.eqb k kv.1) items.

(** [d[k]], when the key is there. *)
Fixpoint getitem (k : string) (items : list (string * pyval)) : option pyval :=
  match items with
  | [] => None
  | (k', v) :: rest => if String.eqb k k' then Some v else getitem k rest
  end.

(** [sub in s], for a string [s]. *)
Definition contains (sub s : string) : bool :=
  match String.index 0 sub s with
  | Some _ => true
  | None => false
  end.

(** [for prov in provider.values(): body(prov)], which stops at the first
    exception; the module-level dict [providers] is threaded through. *)
Definition for_each_value
    (body : pyval → gmap (string + Z) pyval
            → option provider_exception * gmap (string + Z) pyval) :=
  fix values (items : list (string * pyval))
      (providers : gmap (string + Z) pyval) :=
    match items with
    | [] => (None, providers)
    | (_, prov) :: rest =>
        match body prov providers with
        | (Some e, providers) => (Some e, providers)
        | (None, providers) => values rest providers
        end
    end.

(** The keys of [providers] are the names found, strings or ints; a dict
    is not hashable.  On a string, ["url" in provider] is a substring test,
    after which either the subscript or [.values()] fails; on an int the
    test itself fails. *)
Fixpoint get_ctx_providers (provider : pyval)
    (providers : gmap (string + Z) pyval)
    : option provider_exception * gmap (string + Z) pyval :=
  match provider with
  | PDict items =>
      if has_key "url" items then
        match getitem "name" items with
        | None => (Some (KeyError "name"), providers)
        | Some (PStr n) => (None, <[inl n := provider]> providers)
        | Some (PInt n) => (None, <[inr n := provider]> providers)
        | Some (PDict _) => (Some TypeError, providers)
        end
      else for_each_value get_ctx_providers items providers
  | PStr s =>
      if contains "url" s then (Some TypeError, providers)
      else (Some AttributeError, providers)
  | PInt _ => (Some TypeError, providers)
  end.

(** * Vocabulary of the properties *)

(** [l] is [lo, lo + step, lo + 2 * step, ...] cut before [hi]: its item
    [k] is [lo + k * step], and it is there exactly when that is below
    [hi]. *)
Definition arithmetic_below (lo hi step : Z) (l : list Z) : Prop :=
  ∀ (k : nat) (v : Z),
    l !! k = Some v ↔ v = lo + Z.of_nat k * step ∧ v < hi.

Definition ascending (l : list Z) : Prop :=
  ∀ (i j : nat) (x y : Z),
    (i < j)%nat → l !! i = Some x → l !! j = Some y → x < y.

Definition descending (l : list Z) : Prop :=
  ∀ (i j : nat) (x y : Z),
    (i < j)%nat → l !! i = Some x → l !! j = Some y → y < x.

(** The rationals the four bounds denote, when all four are finite. *)
Definition bounds_value (b : bounds) : option (Q * Q * Q * Q) :=
  let '(xmin, ymin, xmax, ymax) := b in
  match Float.value xmin, Float.value ymin,
        Float.value xmax, Float.value ymax with
  | Some qx0, Some qy0, Some qx1, Some qy1 => Some (qx0, qy0, qx1, qy1)
  | _, _, _, _ => None
  end.

(** [z] is [q] rounded toward negative infinity. *)
Definition is_floor (q : Q) (z : Z) : Prop :=
  (inject_Z z <= q)%Q ∧ (q < inject_Z (z + 1))%Q.

(** The corner [(x, y)] of a polygon built from ints. *)
Definition int_coord (c : coord) : option (Z * Z) :=
  match c with
  | (Int x, Int y) => Some (x, y)
  | _ => None
  end.

(** A box [(xmin, ymin, xmax, ymax)] with int sides. *)
Definition extent : Type := Z * Z * Z * Z.

Definition grow (e : extent) (c : Z * Z) : extent :=
  let '(x0, y0, x1, y1) := e in
  let '(x, y) := c in
  (Z.min x0 x, Z.min y0 y, Z.max x1 x, Z.max y1 y).

(** The extent of a geometry with int coordinates.  An axis-parallel
    square, as [square] builds, is the closed box of its extent. *)
Definition int_extent (g : Geometry) : option extent :=
  match g with
  | Polygon shell =>
      match mapM int_coord shell with
      | Some ((x, y) :: rest) => Some (foldl grow (x, y, x, y) rest)
      | _ => None
      end
  | Point c =>
      match int_coord c with
      | Some (x, y) => Some (x, y, x, y)
      | None => None
      end
  end.

(** Two boxes share a region of positive area. *)
Definition overlap (a b : extent) : Prop :=
  let '(ax0, ay0, ax1, ay1) := a in
  let '(bx0, by0, bx1, by1) := b in
  Z.max ax0 bx0 < Z.min ax1 bx1 ∧ Z.max ay0 by0 < Z.min ay1 by1.

(** The box lies in [[ix_min, ix_max) x (iy_min, iy_max]]. *)
Definition within_floored_box (ib : int_bounds) (e : extent) : Prop :=
  let '(ix_min, iy_min, ix_max, iy_max) := ib in
  let '(x0, y0, x1, y1) := e in
  ix_min ≤ x0 ∧ x1 < ix_max ∧ iy_min < y0 ∧ y1 ≤ iy_max.

(** The box lies in
    [[ix_min, ix_max + side) x [iy_min - side, iy_max)]. *)
Definition within_reach (side : Z) (ib : int_bounds) (e : extent) : Prop :=
  let '(ix_min, iy_min, ix_max, iy_max) := ib in
  let '(x0, y0, x1, y1) := e in
  ix_min ≤ x0 ∧ x1 < ix_max + side ∧ iy_min - side ≤ y0 ∧ y1 < iy_max.

(** The box starts below the high x bound and ends above it. *)
Definition straddles_high_x (ib : int_bounds) (e : extent) : Prop :=
  let '(_, _, ix_max, _) := ib in
  let '(x0, _, x1, _) := e in
  x0 < ix_max ∧ ix_max < x1.

(** The rational point [(px, py)] lies in the closed box. *)
Definition covers (e : extent) (px py : Q) : Prop :=
  let '(x0, y0, x1, y1) := e in
  (inject_Z x0 <= px <= inject_Z x1)%Q ∧ (inject_Z y0 <= py <= inject_Z y1)%Q.

(** A provider tree the traversal can walk: every dict without a 'url' holds
    only such trees, and every dict with a 'url' has a string or int
    'name'. *)
Fixpoint registrable (v : pyval) : bool :=
  match v with
  | PDict items =>
      if has_key "url" items then
        match getitem "name" items with
        | Some (PStr _) | Some (PInt _) => true
        | _ => false
        end
      else forallb (λ kv, registrable kv.2) items
  | _ => false
  end.

(** The tile providers of a tree with their names, in the order of the
    items; what lies inside a tile provider is not looked at. *)
Fixpoint leaves (v : pyval) : list ((string + Z) * pyval) :=
  match v with
  | PDict items =>
      if has_key "url" items then
        match getitem "name" items with
        | Some (PStr n) => [(inl n, v)]
        | Some (PInt n) => [(inr n, v)]
        | _ => []
        end
      else flat_map (λ kv, leaves kv.2) items
  | _ => []
  end.

(** [providers[k] = v] for each pair of the list, in order. *)
Definition register_all (ls : list ((string + Z) * pyval))
    (providers : gmap (string + Z) pyval) : gmap (string + Z) pyval :=
  foldl (λ p kv, <[kv.1 := kv.2]> p) providers ls.

(** The value of the last pair of the list whose key is [k]. *)
Definition last_binding (k : string + Z) (ls : list ((string + Z) * pyval))
    : option pyval :=
  foldl (λ acc kv, if decide (k = kv.1) then Some kv.2 else acc) None ls.

Definition key_value (k : string + Z) : pyval :=
  match k with
  | inl s => PStr s
  | inr z => PInt z
  end.

(** [v] is a dict with a 'url' whose 'name' is [k]. *)
Definition registered_leaf (k : string + Z) (v : pyval) : Prop :=
  ∃ items : list (string * pyval),
    v = PDict items ∧ has_key "url" items = true
    ∧ getitem "name" items = Some (key_value k).

(** An outcome of the traversal of a tree with tile providers [all], from
    the registry [p]: a front part of [all] has been registered, all of it
    when nothing was raised, which happens exactly when [ok]. *)
Definition run_of
    (out : option provider_exception * gmap (string + Z) pyval)
    (all : list ((string + Z) * pyval)) (ok : bool)
    (p : gmap (string + Z) pyval) : Prop :=
  ∃ done rest : list ((string + Z) * pyval),
    all = done ++ rest ∧ out.2 = register_all done p
    ∧ (out.1 = None ↔ ok = true) ∧ (out.1 = None → rest = []).

(** No bounding box is computable for a frame without geometries:
    [total_bounds] reports four NaNs, as geopandas does. *)
Definition empty_has_no_box (total_bounds : GeoDataFrame → bounds) : Prop :=
  ∀ d : GeoDataFrame,
    geometry d = [] →
    total_bounds d = (S754_nan, S754_nan, S754_nan, S754_nan).

(** A reprojection, when it returns, returns as many geometries as it was
    given: it transforms coordinates and keeps the geometries and their
    order. *)
Definition keeps_size
    (reproject : GeoDataFrame → option string → result GeoDataFrame) : Prop :=
  ∀ (d d' : GeoDataFrame) (target : option string),
    reproject d target = Ok d' →
    length (geometry d') = length (geometry d).

(** * Example inputs *)

(** The metric bounding box of the spec's scenario. *)
Definition reference_bounds : bounds :=
  (Float.of_Z 1000, Float.of_Z 2000, Float.of_Z 1128, Float.of_Z 2128).

(** A stand-in reprojection for the examples: it only retags the frame. *)
Definition retag (d : GeoDataFrame) (target : option string)
    : result GeoDataFrame :=
  Ok {| geometry := geometry d; crs := target |}.

(** A boundary frame in WGS84, alone on the heap at location 1, whose
    metric bounding box is [reference_bounds]. *)
Definition reference_frame : GeoDataFrame :=
  {| geometry := [Polygon [ (Float (Float.of_Z 1), Float (Float.of_Z 2));
                            (Float (Float.of_Z 3), Float (Float.of_Z 2));
                            (Float (Float.of_Z 3), Float (Float.of_Z 5));
                            (Float (Float.of_Z 1), Float (Float.of_Z 2)) ]];
     crs := Some "epsg:4326"%string |}.

Definition reference_heap : gmap loc GeoDataFrame :=
  {[ 1%positive := reference_frame ]}.

Definition reference_total_bounds (_ : GeoDataFrame) : bounds :=
  reference_bounds.

(** Floored bounds 0 .. 100 in both directions: not a multiple of 64. *)
Definition overhang_bounds : bounds :=
  (Float.of_Z 0, Float.of_Z 0, Float.of_Z 100, Float.of_Z 100).

(** A frame in WGS84 that has no geometry, alone on the heap. *)
Definition empty_reference : GeoDataFrame :=
  {| geometry := []; crs := Some "epsg:4326"%string |}.

Definition empty_reference_heap : gmap loc GeoDataFrame :=
  {[ 1%positive := empty_reference ]}.

(** Bounds for the examples: four NaNs for a frame without geometries, the
    scenario's box for any other. *)
Definition bounds_or_nan (d : GeoDataFrame) : bounds :=
  match geometry d with
  | [] => (S754_nan, S754_nan, S754_nan, S754_nan)
  | _ :: _ => reference_bounds
  end.

(** Bounds whose [xmax] is infinite. *)
Definition unbounded_total_bounds (_ : GeoDataFrame) : bounds :=
  (Float.of_Z 1000, Float.of_Z 2000, S754_infinity false, Float.of_Z 2128).

(** A source with two layers, for the examples. *)
Definition fence_frame : GeoDataFrame :=
  {| geometry := [ Point (Float (Float.of_Z 1), Float (Float.of_Z 2));
                   Point (Float (Float.of_Z 1), Float (Float.of_Z 2)) ];
     crs := Some "epsg:4326"%string |}.

Definition two_layers (_ : string) : result (list string) :=
  Ok ["fences"; "parcels"]%string.

Definition read_two_layers (_ layer : string) : result GeoDataFrame :=
  if String.eqb layer "fences" then Ok fence_frame else Ok reference_frame.

(** A source without layers, and one whose second layer does not parse. *)
Definition no_layers (_ : string) : result (list string) := Ok [].

Definition read_broken_parcels (_ layer : string) : result GeoDataFrame :=
  if String.eqb layer "fences" then Ok fence_frame
  else Raise (LibraryError "DriverError").

Definition cannot_open (_ : string) : result (list string) :=
  Raise (LibraryError "DriverError").

Definition first_crs (a b : option string) : option string :=
  match a with
  | Some c => Some c
  | None => b
  end.

(** Tile providers and provider trees, for the examples. *)
Definition tile_provider (name url : string) : pyval :=
  PDict [ ("url", PStr url); ("max_zoom", PInt 19);
          ("attribution", PStr "(C) contributors"); ("name", PStr name) ].

Definition basemaps : pyval :=
  PDict [ ("OpenStreetMap",
           PDict [ ("Mapnik",
                    tile_provider "OpenStreetMap.Mapnik"
                      "https://tile.openstreetmap.org/{z}/{x}/{y}.png") ]);
          ("Esri",
           PDict [ ("WorldStreetMap",
                    tile_provider "Esri.WorldStreetMap"
                      "https://server.arcgisonline.com/street/{z}/{y}/{x}");
                   ("WorldImagery",
                    tile_provider "Esri.WorldImagery"
                      "https://server.arcgisonline.com/imagery/{z}/{y}/{x}") ]) ].

(** Two tile providers under one name. *)
Definition mirrored_basemaps : pyval :=
  PDict [ ("primary", tile_provider "OpenTopoMap" "https://a.example/{z}");
          ("mirror", tile_provider "OpenTopoMap" "https://b.example/{z}") ].

(** A registry that holds one tile provider. *)
Definition one_provider : gmap (string + Z) pyval :=
  {[ inl "Stamen.Toner"%string
     := tile_provider "Stamen.Toner" "https://stamen.example/{z}" ]}.

(** * Properties *)

(** ** Floor of a float *)

Module FloatFacts.
Import Float.

Lemma py_int_of_Z (z : Z) : py_int (of_Z z) = Ok z.
Proof. destruct z; reflexivity. Qed.

Lemma shiftl_neg (z : Z) (p : positive) :
  Z.shiftl z (Z.neg p) = z / Z.pos (2 ^ p).
Proof.
  change (Z.shiftl z (Z.neg p)) with (Z.shiftr z (Z.pos p)).
  rewrite Z.shiftr_div_pow2 by lia.
  now rewrite Pos2Z.inj_pow.
Qed.

(** [int(np.floor(f))] is the floor of the number [f] denotes. *)
Lemma int_floor_value (f : spec_float) (q : Q) :
  value f = Some q → py_int (np_floor f) = Ok (Qfloor q).
Proof.
  destruct f as [s|s| |s m e]; simpl; try discriminate.
  - intros [= <-]. reflexivity.
  - rewrite py_int_of_Z. destruct e as [|p|p]; intros [= <-].
    + rewrite Qfloor_Z, Z.shiftl_0_r, Z.pow_0_r, Z.mul_1_r. reflexivity.
    + rewrite Qfloor_Z, Z.shiftl_mul_pow2 by lia. reflexivity.
    + rewrite shiftl_neg. reflexivity.
Qed.

(** ... and an error on a float that denotes no number. *)
Lemma int_floor_not_finite (f : spec_float) :
  value f = None →
  py_int (np_floor f) = Raise ValueError
  ∨ py_int (np_floor f) = Raise OverflowError.
Proof.
  destruct f as [s|s| |s m e]; simpl; try discriminate; auto.
  destruct e; discriminate.
Qed.

End FloatFacts.

(** ** [range] with a positive step *)

Section Range.

Variables start stop step : Z.
Hypothesis step_pos : 0 < step.

Lemma range_length_nonneg : 0 ≤ range_length start stop step.
Proof using step_pos.
  unfold range_length.
  destruct (Z.ltb_spec 0 step); [|lia].
  destruct (Z.ltb_spec start stop); [|lia].
  assert (0 ≤ (stop - start - 1) / step) by (apply Z.div_pos; lia). lia.
Qed.

Lemma range_length_lt (k : Z) :
  0 ≤ k → k < range_length start stop step ↔ start + k * step < stop.
Proof using step_pos.
  intros Hk. unfold range_length.
  destruct (Z.ltb_spec 0 step); [|lia].
  destruct (Z.ltb_spec start stop) as [Hlt|Hge]; [|nia].
  pose proof (Z.div_mod (stop - start - 1) step ltac:(lia)) as Hdm.
  pose proof (Z.mod_pos_bound (stop - start - 1) step ltac:(lia)) as Hm.
  set (q := (stop - start - 1) / step) in *.
  set (r := (stop - start - 1) mod step) in *.
  split; intros; nia.
Qed.

Lemma py_range_ok :
  py_range start stop step
  = Ok (map (λ i : nat, start + Z.of_nat i * step)
            (seq 0 (Z.to_nat (range_length start stop step)))).
Proof using step_pos.
  unfold py_range. destruct (Z.eqb_spec step 0); [lia | reflexivity].
Qed.

Lemma py_range_arithmetic (l : list Z) :
  py_range start stop step = Ok l → arithmetic_below start stop step l.
Proof using step_pos.
  rewrite py_range_ok. intros [= <-] k v.
  rewrite list_lookup_fmap.
  pose proof range_length_nonneg as Hn.
  pose proof (range_length_lt (Z.of_nat k) ltac:(lia)) as Hk.
  destruct (decide (k < Z.to_nat (range_length start stop step))%nat) as [Hlt|Hge].
  - rewrite lookup_seq_lt by assumption. simpl. split.
    + intros [= <-]. split; [reflexivity | apply Hk; lia].
    + intros [-> _]. reflexivity.
  - rewrite lookup_seq_ge by lia. simpl. split; [discriminate|].
    intros [-> Hv]. apply Hk in Hv. lia.
Qed.

Lemma py_range_length (l : list Z) :
  py_range start stop step = Ok l →
  Z.of_nat (length l) = range_length start stop step.
Proof using step_pos.
  rewrite py_range_ok. intros [= <-].
  rewrite length_map, length_seq. pose proof range_length_nonneg. lia.
Qed.

End Range.

Lemma arithmetic_below_ascending (lo hi step : Z) (l : list Z) :
  0 < step → arithmetic_below lo hi step l → ascending l.
Proof.
  intros Hs Hl i j x y Hij Hi Hj.
  apply Hl in Hi as [-> _]. apply Hl in Hj as [-> _]. nia.
Qed.

Lemma arithmetic_below_elem (lo hi step : Z) (l : list Z) (v : Z) :
  arithmetic_below lo hi step l →
  v ∈ l ↔ ∃ k : Z, 0 ≤ k ∧ v = lo + k * step ∧ v < hi.
Proof.
  intros Hl. rewrite list_elem_of_lookup. split.
  - intros [k Hk]. apply Hl in Hk as [-> Hv]. exists (Z.of_nat k). lia.
  - intros (k & Hk & -> & Hv). exists (Z.to_nat k). apply Hl.
    rewrite Z2Nat.id by assumption. auto.
Qed.

Lemma ascending_reverse (l : list Z) : ascending l → descending (reverse l).
Proof.
  intros Hl i j x y Hij Hi Hj.
  pose proof (lookup_lt_Some _ _ _ Hi) as Hil.
  pose proof (lookup_lt_Some _ _ _ Hj) as Hjl.
  rewrite length_reverse in Hil, Hjl.
  rewrite reverse_lookup in Hi, Hj by assumption.
  eapply Hl; [|exact Hj|exact Hi]. lia.
Qed.

(** ** The two loops *)

Lemma column_loop_app (side x : Z) (rows : list Z) (polygons : list Geometry) :
  column_loop side x rows polygons = polygons ++ (square side x <$> rows).
Proof.
  unfold column_loop. revert polygons.
  induction rows as [|y rows IH]; intros polygons; simpl.
  - now rewrite app_nil_r.
  - rewrite IH, <- app_assoc. reflexivity.
Qed.

Lemma outer_loop_app (side : Z) (cols rows : list Z) (polygons : list Geometry) :
  foldl (λ polygons x, column_loop side x rows polygons) polygons cols
  = polygons ++ (cols ≫= λ x, square side x <$> rows).
Proof.
  revert polygons. induction cols as [|x cols IH]; intros polygons; simpl.
  - now rewrite app_nil_r.
  - rewrite IH, column_loop_app, <- app_assoc. reflexivity.
Qed.

(** The loops emit the columns one after the other, each in the order of
    [rows]. *)
Lemma grid_loops_bind (side : Z) (cols rows : list Z) :
  grid_loops side cols rows = cols ≫= λ x, square side x <$> rows.
Proof. unfold grid_loops. now rewrite outer_loop_app. Qed.

Lemma grid_loops_length (side : Z) (cols rows : list Z) :
  length (grid_loops side cols rows) = (length cols * length rows)%nat.
Proof.
  rewrite grid_loops_bind.
  induction cols as [|x cols IH]; [reflexivity|].
  rewrite bind_cons, length_app, length_fmap, IH. simpl. lia.
Qed.

(** Where a polygon sits in the output, and which origin it has. *)
Lemma grid_loops_lookup (side : Z) (cols rows : list Z) (p : nat) (g : Geometry) :
  grid_loops side cols rows !! p = Some g ↔
  ∃ (i j : nat) (x y : Z),
    cols !! i = Some x ∧ rows !! j = Some y
    ∧ p = (i * length rows + j)%nat ∧ g = square side x y.
Proof.
  rewrite grid_loops_bind. revert p.
  induction cols as [|x0 cols IH]; intros p.
  - simpl. split; [discriminate|]. intros (i & j & x & y & Hi & _). discriminate.
  - rewrite bind_cons, lookup_app_Some, length_fmap, IH, list_lookup_fmap.
    split.
    + intros [Hp | [Hge (i & j & x & y & Hi & Hj & Hp & ->)]].
      * destruct (rows !! p) as [y|] eqn:Hy; [|discriminate].
        injection Hp as <-. exists 0%nat, p, x0, y. auto.
      * exists (S i), j, x, y. repeat split; auto. simpl. lia.
    + intros (i & j & x & y & Hi & Hj & -> & ->).
      pose proof (lookup_lt_Some _ _ _ Hj) as Hlt.
      destruct i as [|i]; simpl in *.
      * injection Hi as ->. left. now rewrite Hj.
      * right. split; [lia|]. exists i, j, x, y. repeat split; auto. lia.
Qed.

Lemma grid_loops_elem (side : Z) (cols rows : list Z) (g : Geometry) :
  g ∈ grid_loops side cols rows ↔
  ∃ x y : Z, x ∈ cols ∧ y ∈ rows ∧ g = square side x y.
Proof.
  rewrite list_elem_of_lookup. setoid_rewrite grid_loops_lookup. split.
  - intros (p & i & j & x & y & Hi & Hj & _ & ->).
    exists x, y. eauto using list_elem_of_lookup_2.
  - intros (x & y & [i Hi]%list_elem_of_lookup & [j Hj]%list_elem_of_lookup & ->).
    exists (i * length rows + j)%nat, i, j, x, y. auto.
Qed.

(** ** From the bounds to the polygons *)

Lemma result_bind_ok {A B} (a : A) (k : A → result B) : Ok a ≫= k = k a.
Proof. reflexivity. Qed.

Lemma floor_bounds_value (b : bounds) (qx0 qy0 qx1 qy1 : Q) :
  bounds_value b = Some (qx0, qy0, qx1, qy1) →
  floor_bounds b = Ok (Qfloor qx0, Qfloor qy0, Qfloor qx1, Qfloor qy1).
Proof.
  destruct b as [[[xmin ymin] xmax] ymax]. unfold bounds_value, floor_bounds.
  destruct (Float.value xmin) eqn:Hx0; [|discriminate].
  destruct (Float.value ymin) eqn:Hy0; [|discriminate].
  destruct (Float.value xmax) eqn:Hx1; [|discriminate].
  destruct (Float.value ymax) eqn:Hy1; [|discriminate].
  intros [= -> -> -> ->].
  rewrite (FloatFacts.int_floor_value _ _ Hx0), result_bind_ok.
  rewrite (FloatFacts.int_floor_value _ _ Hy0), result_bind_ok.
  rewrite (FloatFacts.int_floor_value _ _ Hx1), result_bind_ok.
  rewrite (FloatFacts.int_floor_value _ _ Hy1), result_bind_ok.
  reflexivity.
Qed.

(** With a positive cell side the tiling of floored bounds never raises,
    and its parts are these. *)
Lemma grid_polygons_floored (side : Z) (b : bounds) (x0 y0 x1 y1 : Z) :
  0 < side →
  floor_bounds b = Ok (x0, y0, x1, y1) →
  ∃ cols up : list Z,
    grid_cols side (x0, y0, x1, y1) = Ok cols
    ∧ grid_rows side (x0, y0, x1, y1) = Ok (reverse up)
    ∧ grid_polygons side b = Ok (grid_loops side cols (reverse up))
    ∧ arithmetic_below x0 x1 side cols
    ∧ arithmetic_below y0 y1 side up
    ∧ Z.of_nat (length cols) = range_length x0 x1 side
    ∧ Z.of_nat (length up) = range_length y0 y1 side.
Proof.
  intros Hs Hb.
  pose proof (py_range_ok x0 x1 side Hs) as Hc.
  pose proof (py_range_ok y0 y1 side Hs) as Hr.
  eexists _, _. unfold grid_polygons, grid_cols, grid_rows.
  rewrite Hb, result_bind_ok, Hc, Hr, !result_bind_ok.
  split_and!; try reflexivity.
  - now apply py_range_arithmetic.
  - now apply py_range_arithmetic.
  - now apply py_range_length.
  - now apply py_range_length.
Qed.

Lemma is_floor_Qfloor (q : Q) : is_floor q (Qfloor q).
Proof. split; [apply Qfloor_le | apply Qlt_floor]. Qed.

(** ** Column and row origins *)

(** C1: the four bounds are floored toward negative infinity; the column
    origins are [ix_min, ix_min + side, ix_min + 2 * side, ...], the item
    [k] being there exactly when it is strictly below [ix_max]; the row
    origins are the same sequence over [iy_min, iy_max), reversed, hence in
    descending order. *)
Theorem origins_floored_half_open
    (side : Z) (b : bounds) (qx0 qy0 qx1 qy1 : Q) :
  0 < side →
  bounds_value b = Some (qx0, qy0, qx1, qy1) →
  ∃ (ix_min iy_min ix_max iy_max : Z) (cols up : list Z),
    floor_bounds b = Ok (ix_min, iy_min, ix_max, iy_max)
    ∧ is_floor qx0 ix_min ∧ is_floor qy0 iy_min
    ∧ is_floor qx1 ix_max ∧ is_floor qy1 iy_max
    ∧ grid_cols side (ix_min, iy_min, ix_max, iy_max) = Ok cols
    ∧ arithmetic_below ix_min ix_max side cols
    ∧ ascending cols
    ∧ grid_rows side (ix_min, iy_min, ix_max, iy_max) = Ok (reverse up)
    ∧ arithmetic_below iy_min iy_max side up
    ∧ descending (reverse up).
Proof.
  intros Hs Hb. apply floor_bounds_value in Hb.
  destruct (grid_polygons_floored side b _ _ _ _ Hs Hb)
    as (cols & up & Hc & Hr & _ & Hca & Hua & _).
  exists (Qfloor qx0), (Qfloor qy0), (Qfloor qx1), (Qfloor qy1), cols, up.
  split_and!; auto using is_floor_Qfloor.
  - eapply arithmetic_below_ascending; eassumption.
  - apply ascending_reverse. eapply arithmetic_below_ascending; eassumption.
Qed.

Lemma origins_floored_half_open_witness :
  ∃ (ix_min iy_min ix_max iy_max : Z) (cols up : list Z),
    floor_bounds reference_bounds = Ok (ix_min, iy_min, ix_max, iy_max)
    ∧ is_floor 1000 ix_min ∧ is_floor 2000 iy_min
    ∧ is_floor 1128 ix_max ∧ is_floor 2128 iy_max
    ∧ grid_cols 64 (ix_min, iy_min, ix_max, iy_max) = Ok cols
    ∧ arithmetic_below ix_min ix_max 64 cols
    ∧ ascending cols
    ∧ grid_rows 64 (ix_min, iy_min, ix_max, iy_max) = Ok (reverse up)
    ∧ arithmetic_below iy_min iy_max 64 up
    ∧ descending (reverse up).
Proof.
  apply (origins_floored_half_open 64 reference_bounds 1000 2000 1128 2128).
  - lia.
  - reflexivity.
Defined.

(** ** Cells *)

(** C2: every emitted cell is the square with corners [(x, y)],
    [(x + side, y)], [(x + side, y - side)], [(x, y - side)] of an origin
    [(x, y)]; the cell of column [i] and row [j] is emitted at position
    [i * number of rows + j], the columns ascending (outer loop) and the
    rows descending (inner loop). *)
Theorem cells_squares_in_loop_order
    (side : Z) (b : bounds) (qx0 qy0 qx1 qy1 : Q) :
  0 < side →
  bounds_value b = Some (qx0, qy0, qx1, qy1) →
  ∃ (ib : int_bounds) (cols rows : list Z) (polygons : list Geometry),
    floor_bounds b = Ok ib
    ∧ grid_cols side ib = Ok cols
    ∧ grid_rows side ib = Ok rows
    ∧ grid_polygons side b = Ok polygons
    ∧ ascending cols
    ∧ descending rows
    ∧ length polygons = (length cols * length rows)%nat
    ∧ (∀ (i j : nat) (x y : Z),
         cols !! i = Some x → rows !! j = Some y →
         polygons !! (i * length rows + j)%nat
         = Some (Polygon [ (Int x, Int y);
                           (Int (x + side), Int y);
                           (Int (x + side), Int (y - side));
                           (Int x, Int (y - side)) ]))
    ∧ (∀ g : Geometry,
         g ∈ polygons →
         ∃ x y : Z,
           x ∈ cols ∧ y ∈ rows
           ∧ g = Polygon [ (Int x, Int y);
                           (Int (x + side), Int y);
                           (Int (x + side), Int (y - side));
                           (Int x, Int (y - side)) ]).
Proof.
  intros Hs Hb. apply floor_bounds_value in Hb.
  destruct (grid_polygons_floored side b _ _ _ _ Hs Hb)
    as (cols & up & Hc & Hr & Hp & Hca & Hua & _).
  eexists _, cols, (reverse up), _.
  split_and!; try eassumption.
  - eapply arithmetic_below_ascending; eassumption.
  - apply ascending_reverse. eapply arithmetic_below_ascending; eassumption.
  - apply grid_loops_length.
  - intros i j x y Hi Hj. apply grid_loops_lookup.
    exists i, j, x, y. auto.
  - intros g Hg. apply grid_loops_elem in Hg. exact Hg.
Qed.

Lemma cells_squares_in_loop_order_witness :
  ∃ (ib : int_bounds) (cols rows : list Z) (polygons : list Geometry),
    floor_bounds reference_bounds = Ok ib
    ∧ grid_cols 64 ib = Ok cols
    ∧ grid_rows 64 ib = Ok rows
    ∧ grid_polygons 64 reference_bounds = Ok polygons
    ∧ ascending cols
    ∧ descending rows
    ∧ length polygons = (length cols * length rows)%nat
    ∧ (∀ (i j : nat) (x y : Z),
         cols !! i = Some x → rows !! j = Some y →
         polygons !! (i * length rows + j)%nat
         = Some (Polygon [ (Int x, Int y);
                           (Int (x + 64), Int y);
                           (Int (x + 64), Int (y - 64));
                           (Int x, Int (y - 64)) ]))
    ∧ (∀ g : Geometry,
         g ∈ polygons →
         ∃ x y : Z,
           x ∈ cols ∧ y ∈ rows
           ∧ g = Polygon [ (Int x, Int y);
                           (Int (x + 64), Int y);
                           (Int (x + 64), Int (y - 64));
                           (Int x, Int (y - 64)) ]).
Proof.
  apply (cells_squares_in_loop_order 64 reference_bounds 1000 2000 1128 2128).
  - lia.
  - reflexivity.
Defined.

(** ** Running [generate_grid] on the heap *)

Lemma fresh_unbound (h : gmap loc GeoDataFrame) : h !! fresh (dom h) = None.
Proof. apply not_elem_of_dom, is_fresh. Qed.

Section TilerFacts.

Variable reproject : GeoDataFrame → option string → result GeoDataFrame.
Variable total_bounds : GeoDataFrame → bounds.

(** [to_crs] reads its frame and touches no object that exists. *)
Lemma to_crs_run (l : loc) (target : option string)
    (h : gmap loc GeoDataFrame) (d : GeoDataFrame) :
  h !! l = Some d →
  to_crs reproject l target h
  = match reproject d target with
    | inl e => (inl e, h)
    | inr d' => (inr (fresh (dom h)), <[fresh (dom h) := d']> h)
    end.
Proof.
  intros Hl. unfold to_crs, mbind, M_bind, deref, lift, new.
  rewrite Hl. destruct (reproject d target); reflexivity.
Qed.

Lemma to_crs_frame (l : loc) (target : option string)
    (h : gmap loc GeoDataFrame) :
  h ⊆ (to_crs reproject l target h).2
  ∧ ∀ l' : loc,
      (to_crs reproject l target h).1 = Ok l' →
      h !! l' = None ∧ is_Some ((to_crs reproject l target h).2 !! l').
Proof.
  destruct (h !! l) as [d|] eqn:Hl.
  - rewrite (to_crs_run _ _ _ _ Hl).
    destruct (reproject d target) as [e|d']; simpl.
    + split; [reflexivity | discriminate].
    + split; [apply insert_subseteq, fresh_unbound|].
      intros l' [= <-]. split; [apply fresh_unbound|].
      rewrite lookup_insert_eq. eauto.
  - unfold to_crs, mbind, M_bind, deref. rewrite Hl. simpl.
    split; [reflexivity | discriminate].
Qed.

(** The run of [generate_grid], stage by stage: the reprojected copy is
    allocated first, then the grid frame, whose CRS is set in place
    before it is reprojected. *)
Lemma generate_grid_run (gdf : loc) (h : gmap loc GeoDataFrame)
    (ref : GeoDataFrame) :
  h !! gdf = Some ref →
  generate_grid reproject total_bounds gdf h
  = match reproject ref (Some "epsg:2773"%string) with
    | inl e => (inl e, h)
    | inr meters =>
        let h1 := <[fresh (dom h) := meters]> h in
        match grid_polygons meters_on_side_of_acre (total_bounds meters) with
        | inl e => (inl e, h1)
        | inr polygons =>
            let lg := fresh (dom h1) in
            to_crs reproject lg (crs ref)
              (<[lg := {| geometry := polygons;
                          crs := Some "epsg:2773"%string |}]> h1)
        end
    end.
Proof.
  intros Hgdf. unfold generate_grid.
  unfold mbind at 1, M_bind at 1, deref at 1. rewrite Hgdf.
  unfold mbind at 1, M_bind at 1. rewrite (to_crs_run _ _ _ _ Hgdf).
  destruct (reproject ref _) as [e|meters]; [reflexivity|].
  unfold mbind at 1, M_bind at 1, deref at 1. rewrite lookup_insert_eq.
  unfold mbind at 1, M_bind at 1, lift at 1.
  destruct (grid_polygons _ _) as [e|polygons]; [reflexivity|].
  unfold mbind at 1, M_bind at 1, new at 1.
  unfold mbind at 1, M_bind at 1, set_crs at 1.
  rewrite lookup_insert_eq, insert_insert_eq. simpl.
  unfold mbind, M_bind, mret, M_ret.
  destruct (to_crs _ _ _ _) as [[e|l] h']; reflexivity.
Qed.

End TilerFacts.

(** ** The reference is left alone *)

(** C9: whatever the outcome, the frame the argument refers to is the same
    after the call as before, as is every object that existed before; the
    grid returned is an object that did not exist before. *)
Theorem generate_grid_preserves_reference
    (reproject : GeoDataFrame → option string → result GeoDataFrame)
    (total_bounds : GeoDataFrame → bounds)
    (gdf : loc) (h : gmap loc GeoDataFrame) (ref : GeoDataFrame) :
  h !! gdf = Some ref →
  (generate_grid reproject total_bounds gdf h).2 !! gdf = Some ref
  ∧ h ⊆ (generate_grid reproject total_bounds gdf h).2
  ∧ ∀ l : loc,
      (generate_grid reproject total_bounds gdf h).1 = Ok l →
      l ≠ gdf ∧ h !! l = None
      ∧ is_Some ((generate_grid reproject total_bounds gdf h).2 !! l).
Proof.
  intros Hgdf.
  assert (h ⊆ (generate_grid reproject total_bounds gdf h).2
          ∧ ∀ l : loc,
              (generate_grid reproject total_bounds gdf h).1 = Ok l →
              h !! l = None
              ∧ is_Some ((generate_grid reproject total_bounds gdf h).2 !! l))
    as [Hsub Hnew].
  { rewrite (generate_grid_run _ _ _ _ _ Hgdf).
    destruct (reproject ref _) as [e|meters]; simpl.
    { split; [reflexivity | discriminate]. }
    pose proof (insert_subseteq h (fresh (dom h)) meters (fresh_unbound h))
      as H1.
    set (h1 := <[fresh (dom h) := meters]> h) in *.
    destruct (grid_polygons _ _) as [e|polygons]; simpl.
    { split; [exact H1 | discriminate]. }
    set (grid := {| geometry := polygons; crs := _ |}).
    pose proof (insert_subseteq h1 (fresh (dom h1)) grid (fresh_unbound h1))
      as H3.
    set (h3 := <[fresh (dom h1) := grid]> h1) in *.
    destruct (to_crs_frame reproject (fresh (dom h1)) (crs ref) h3)
      as [H4 Hl].
    split; [repeat (etrans; [eassumption|]); reflexivity|].
    intros l Hr. destruct (Hl l Hr) as [Hnone Hsome]. split; [|exact Hsome].
    eapply lookup_weaken_None; [exact Hnone|].
    etrans; eassumption. }
  split_and!.
  - eapply lookup_weaken; eassumption.
  - exact Hsub.
  - intros l Hl. destruct (Hnew l Hl) as [Hnone Hsome].
    split_and!; [congruence | assumption | assumption].
Qed.

Lemma generate_grid_preserves_reference_witness :
  (generate_grid retag reference_total_bounds 1%positive reference_heap).2
    !! 1%positive = Some reference_frame
  ∧ reference_heap
    ⊆ (generate_grid retag reference_total_bounds 1%positive reference_heap).2
  ∧ ∀ l : loc,
      (generate_grid retag reference_total_bounds 1%positive reference_heap).1
      = Ok l →
      l ≠ 1%positive ∧ reference_heap !! l = None
      ∧ is_Some ((generate_grid retag reference_total_bounds 1%positive
                    reference_heap).2 !! l).
Proof.
  apply (generate_grid_preserves_reference retag reference_total_bounds
           1%positive reference_heap reference_frame).
  reflexivity.
Defined.

(** ** The fixed metric CRS and cell side *)

(** C10: [generate_grid] takes the reference alone.  It reprojects it to
    'epsg:2773', tiles the bounds of that copy with cell side 64, and ends
    as the reprojection, to the reference's CRS, of a frame that holds the
    tiles and is tagged 'epsg:2773'; an exception of either earlier stage is
    the outcome of the call. *)
Theorem generate_grid_fixed_crs_and_side
    (reproject : GeoDataFrame → option string → result GeoDataFrame)
    (total_bounds : GeoDataFrame → bounds)
    (gdf : loc) (h : gmap loc GeoDataFrame) (ref : GeoDataFrame) :
  h !! gdf = Some ref →
  (∀ e : exception,
     reproject ref (Some "epsg:2773"%string) = Raise e →
     (generate_grid reproject total_bounds gdf h).1 = Raise e)
  ∧ (∀ meters : GeoDataFrame,
       reproject ref (Some "epsg:2773"%string) = Ok meters →
       (∀ e : exception,
          grid_polygons 64 (total_bounds meters) = Raise e →
          (generate_grid reproject total_bounds gdf h).1 = Raise e)
       ∧ (∀ polygons : list Geometry,
            grid_polygons 64 (total_bounds meters) = Ok polygons →
            ∃ (lg : loc) (h3 : gmap loc GeoDataFrame),
              h3 !! lg = Some {| geometry := polygons;
                                 crs := Some "epsg:2773"%string |}
              ∧ generate_grid reproject total_bounds gdf h
                = to_crs reproject lg (crs ref) h3)).
Proof.
  intros Hgdf. rewrite (generate_grid_run _ _ _ _ _ Hgdf).
  change meters_on_side_of_acre with 64.
  unfold Ok, Raise. split.
  - intros e ->. reflexivity.
  - intros meters ->. cbv zeta. split.
    + intros e ->. reflexivity.
    + intros polygons ->. eexists _, _. split; [|reflexivity].
      apply lookup_insert_eq.
Qed.

Lemma generate_grid_fixed_crs_and_side_witness :
  ∃ (lg : loc) (h3 : gmap loc GeoDataFrame),
    h3 !! lg
    = Some {| geometry := [ square 64 1000 2064; square 64 1000 2000;
                            square 64 1064 2064; square 64 1064 2000 ];
              crs := Some "epsg:2773"%string |}
    ∧ generate_grid retag reference_total_bounds 1%positive reference_heap
      = to_crs retag lg (Some "epsg:4326"%string) h3.
Proof.
  destruct (generate_grid_fixed_crs_and_side retag reference_total_bounds
              1%positive reference_heap reference_frame eq_refl) as [_ H].
  destruct (H {| geometry := geometry reference_frame;
                 crs := Some "epsg:2773"%string |} eq_refl) as [_ H'].
  exact (H' _ eq_refl).
Defined.

(** ** The scenario of the spec *)

Lemma Qfloor_of_integer (q : Q) (z : Z) : (q == inject_Z z)%Q → Qfloor q = z.
Proof. intros ->. apply Qfloor_Z. Qed.

(** C3: a reference whose metric bounding box is (1000, 2000, 1128, 2128),
    tiled with cell side 64: the column origins are 1000 and 1064, the row
    origins 2064 then 2000, and the grid frame that [generate_grid]
    reprojects back holds the 2 * 2 = 4 cells, column by column and top
    down within a column. *)
Theorem reference_box_four_cells
    (reproject : GeoDataFrame → option string → result GeoDataFrame)
    (total_bounds : GeoDataFrame → bounds)
    (gdf : loc) (h : gmap loc GeoDataFrame) (ref meters : GeoDataFrame)
    (qx0 qy0 qx1 qy1 : Q) :
  h !! gdf = Some ref →
  reproject ref (Some "epsg:2773"%string) = Ok meters →
  bounds_value (total_bounds meters) = Some (qx0, qy0, qx1, qy1) →
  (qx0 == 1000)%Q → (qy0 == 2000)%Q → (qx1 == 1128)%Q → (qy1 == 2128)%Q →
  let cells := [ square 64 1000 2064; square 64 1000 2000;
                 square 64 1064 2064; square 64 1064 2000 ] in
  floor_bounds (total_bounds meters) = Ok (1000, 2000, 1128, 2128)
  ∧ grid_cols 64 (1000, 2000, 1128, 2128) = Ok [1000; 1064]
  ∧ grid_rows 64 (1000, 2000, 1128, 2128) = Ok [2064; 2000]
  ∧ grid_polygons 64 (total_bounds meters) = Ok cells
  ∧ length cells = 4%nat
  ∧ ∃ (lg : loc) (h3 : gmap loc GeoDataFrame),
      h3 !! lg = Some {| geometry := cells; crs := Some "epsg:2773"%string |}
      ∧ generate_grid reproject total_bounds gdf h
        = to_crs reproject lg (crs ref) h3.
Proof.
  intros Hgdf Hm Hb Hx0 Hy0 Hx1 Hy1 cells.
  apply floor_bounds_value in Hb.
  rewrite (Qfloor_of_integer qx0 1000 Hx0), (Qfloor_of_integer qy0 2000 Hy0),
    (Qfloor_of_integer qx1 1128 Hx1), (Qfloor_of_integer qy1 2128 Hy1) in Hb.
  assert (grid_polygons 64 (total_bounds meters) = Ok cells) as Hp.
  { unfold grid_polygons. rewrite Hb. reflexivity. }
  split_and!; try reflexivity; try assumption.
  rewrite (generate_grid_run _ _ _ _ _ Hgdf), Hm.
  change meters_on_side_of_acre with 64.
  unfold Ok at 1. cbv zeta. rewrite Hp. unfold Ok at 1.
  eexists _, _. split; [|reflexivity]. apply lookup_insert_eq.
Qed.

Lemma reference_box_four_cells_witness :
  let cells := [ square 64 1000 2064; square 64 1000 2000;
                 square 64 1064 2064; square 64 1064 2000 ] in
  floor_bounds reference_bounds = Ok (1000, 2000, 1128, 2128)
  ∧ grid_cols 64 (1000, 2000, 1128, 2128) = Ok [1000; 1064]
  ∧ grid_rows 64 (1000, 2000, 1128, 2128) = Ok [2064; 2000]
  ∧ grid_polygons 64 reference_bounds = Ok cells
  ∧ length cells = 4%nat
  ∧ ∃ (lg : loc) (h3 : gmap loc GeoDataFrame),
      h3 !! lg = Some {| geometry := cells; crs := Some "epsg:2773"%string |}
      ∧ generate_grid retag reference_total_bounds 1%positive reference_heap
        = to_crs retag lg (Some "epsg:4326"%string) h3.
Proof.
  apply (reference_box_four_cells retag reference_total_bounds 1%positive
           reference_heap reference_frame
           {| geometry := geometry reference_frame;
              crs := Some "epsg:2773"%string |}
           1000 2000 1128 2128);
    reflexivity.
Defined.

(** ** Extents *)

Lemma int_extent_square (side x y : Z) :
  0 ≤ side → int_extent (square side x y) = Some (x, y - side, x + side, y).
Proof.
  intros Hs. cbn. repeat f_equal; lia.
Qed.

(** ** How many cells *)

Lemma range_length_ceiling (lo hi side : Z) :
  0 < side → lo ≤ hi →
  range_length lo hi side
  = Qceiling (inject_Z (hi - lo) / inject_Z side).
Proof.
  intros Hs Hle. destruct side as [|p|p]; try lia.
  rewrite <- Qmake_Qdiv.
  unfold Qceiling, Qfloor, Qopp, range_length. cbn [Qnum Qden].
  destruct (Z.ltb_spec 0 (Z.pos p)); [|lia].
  pose proof (Z.div_mod (- (hi - lo)) (Z.pos p) ltac:(lia)) as Hdm.
  pose proof (Z.mod_pos_bound (- (hi - lo)) (Z.pos p) ltac:(lia)) as Hm.
  destruct (Z.ltb_spec lo hi) as [Hlt|Hge].
  - pose proof (Z.div_mod (hi - lo - 1) (Z.pos p) ltac:(lia)) as Hdm'.
    pose proof (Z.mod_pos_bound (hi - lo - 1) (Z.pos p) ltac:(lia)) as Hm'.
    nia.
  - replace (hi - lo) with 0 in * by lia. reflexivity.
Qed.

(** ** Cells do not overlap *)

Lemma arithmetic_below_apart (lo hi side : Z) (l : list Z)
    (i j : nat) (x y : Z) :
  0 < side → arithmetic_below lo hi side l →
  l !! i = Some x → l !! j = Some y → i ≠ j →
  x + side ≤ y ∨ y + side ≤ x.
Proof.
  intros Hs Hl Hi Hj Hij.
  apply Hl in Hi as [-> _]. apply Hl in Hj as [-> _]. nia.
Qed.

Lemma reverse_apart (side : Z) (l : list Z) (i j : nat) (x y : Z) :
  (∀ (i j : nat) (x y : Z),
     l !! i = Some x → l !! j = Some y → i ≠ j →
     x + side ≤ y ∨ y + side ≤ x) →
  reverse l !! i = Some x → reverse l !! j = Some y → i ≠ j →
  x + side ≤ y ∨ y + side ≤ x.
Proof.
  intros Hl Hi Hj Hij.
  pose proof (lookup_lt_Some _ _ _ Hi) as Hil.
  pose proof (lookup_lt_Some _ _ _ Hj) as Hjl.
  rewrite length_reverse in Hil, Hjl.
  rewrite reverse_lookup in Hi, Hj by assumption.
  eapply Hl; [exact Hi | exact Hj | lia].
Qed.

Lemma grid_loops_no_overlap (side : Z) (cols rows : list Z)
    (p q : nat) (g1 g2 : Geometry) (e1 e2 : extent) :
  0 < side →
  (∀ (i j : nat) (x y : Z),
     cols !! i = Some x → cols !! j = Some y → i ≠ j →
     x + side ≤ y ∨ y + side ≤ x) →
  (∀ (i j : nat) (x y : Z),
     rows !! i = Some x → rows !! j = Some y → i ≠ j →
     x + side ≤ y ∨ y + side ≤ x) →
  p ≠ q →
  grid_loops side cols rows !! p = Some g1 →
  grid_loops side cols rows !! q = Some g2 →
  int_extent g1 = Some e1 → int_extent g2 = Some e2 →
  ¬ overlap e1 e2.
Proof.
  intros Hs Hc Hr Hpq Hp Hq He1 He2.
  apply grid_loops_lookup in Hp as (i & j & x & y & Hi & Hj & -> & ->).
  apply grid_loops_lookup in Hq as (i' & j' & x' & y' & Hi' & Hj' & -> & ->).
  rewrite int_extent_square in He1, He2 by lia.
  injection He1 as <-. injection He2 as <-.
  unfold overlap. intros [Hx Hy].
  destruct (decide (i = i')) as [->|Hii].
  - destruct (decide (j = j')) as [->|Hjj]; [congruence|].
    destruct (Hr _ _ _ _ Hj Hj' Hjj); lia.
  - destruct (Hc _ _ _ _ Hi Hi' Hii); lia.
Qed.

(** C4, as the spec states it, fails: with bounds 0 .. 100 and cell side 64
    the cell of origin (64, 64) spans x from 64 to 128, across the high
    bound 100, and it is emitted, so that a partial cell at the high edge is
    not omitted. *)
Lemma partial_cells_omitted_counterexample :
  ¬ (∀ (polygons : list Geometry) (g : Geometry) (e : extent),
       grid_polygons 64 overhang_bounds = Ok polygons →
       g ∈ polygons → int_extent g = Some e →
       ¬ straddles_high_x (0, 0, 100, 100) e).
Proof.
  intros H.
  apply (H [ square 64 0 64; square 64 0 0;
             square 64 64 64; square 64 64 0 ]
           (square 64 64 64) (64, 0, 128, 64)).
  - reflexivity.
  - apply list_elem_of_lookup. exists 2%nat. reflexivity.
  - reflexivity.
  - simpl. lia.
Qed.

(** C4, amended: for floored bounds with [ix_min <= ix_max] and
    [iy_min <= iy_max] and a positive cell side, the number of cells is
    [ceil((ix_max - ix_min) / side) * ceil((iy_max - iy_min) / side)];
    every origin of the two sequences below its high bound has its cell
    emitted, and every emitted cell is a whole [side] by [side] box: a cell
    that reaches past the high x bound is neither omitted nor clipped. *)
Theorem cell_count_ceiling (side : Z) (b : bounds) (x0 y0 x1 y1 : Z) :
  0 < side →
  floor_bounds b = Ok (x0, y0, x1, y1) →
  x0 ≤ x1 → y0 ≤ y1 →
  ∃ polygons : list Geometry,
    grid_polygons side b = Ok polygons
    ∧ Z.of_nat (length polygons)
      = Qceiling (inject_Z (x1 - x0) / inject_Z side)
        * Qceiling (inject_Z (y1 - y0) / inject_Z side)
    ∧ (∀ kx ky : Z,
         0 ≤ kx → 0 ≤ ky →
         x0 + kx * side < x1 → y0 + ky * side < y1 →
         square side (x0 + kx * side) (y0 + ky * side) ∈ polygons)
    ∧ (∀ g : Geometry,
         g ∈ polygons →
         ∃ x y : Z, int_extent g = Some (x, y - side, x + side, y)).
Proof.
  intros Hs Hb Hx Hy.
  destruct (grid_polygons_floored side b _ _ _ _ Hs Hb)
    as (cols & up & _ & _ & Hp & Hca & Hua & Hcl & Hul).
  eexists. split; [exact Hp|]. split_and!.
  - rewrite grid_loops_length, length_reverse, Nat2Z.inj_mul, Hcl, Hul.
    now rewrite !range_length_ceiling by assumption.
  - intros kx ky Hkx Hky Hkx' Hky'. apply grid_loops_elem.
    eexists _, _. split_and!; [| |reflexivity].
    + eapply arithmetic_below_elem; [exact Hca|]. eauto.
    + apply elem_of_reverse.
      eapply arithmetic_below_elem; [exact Hua|]. eauto.
  - intros g (x & y & _ & _ & ->)%grid_loops_elem.
    exists x, y. apply int_extent_square. lia.
Qed.

Lemma cell_count_ceiling_witness :
  ∃ polygons : list Geometry,
    grid_polygons 64 overhang_bounds = Ok polygons
    ∧ Z.of_nat (length polygons)
      = Qceiling (inject_Z (100 - 0) / inject_Z 64)
        * Qceiling (inject_Z (100 - 0) / inject_Z 64)
    ∧ (∀ kx ky : Z,
         0 ≤ kx → 0 ≤ ky →
         0 + kx * 64 < 100 → 0 + ky * 64 < 100 →
         square 64 (0 + kx * 64) (0 + ky * 64) ∈ polygons)
    ∧ (∀ g : Geometry,
         g ∈ polygons →
         ∃ x y : Z, int_extent g = Some (x, y - 64, x + 64, y)).
Proof.
  apply (cell_count_ceiling 64 overhang_bounds 0 0 100 100).
  - lia.
  - reflexivity.
  - lia.
  - lia.
Defined.

(** ** Where the cells lie *)

(** C5, as the spec states it, fails: in the spec's own scenario the cell
    of origin (1000, 2000) spans y from 1936 to 2000, below
    [floor(ymin) = 2000]. *)
Lemma cells_within_floored_box_counterexample :
  ¬ (∀ (polygons : list Geometry) (g : Geometry) (e : extent),
       grid_polygons 64 reference_bounds = Ok polygons →
       g ∈ polygons → int_extent g = Some e →
       within_floored_box (1000, 2000, 1128, 2128) e).
Proof.
  intros H.
  specialize (H [ square 64 1000 2064; square 64 1000 2000;
                  square 64 1064 2064; square 64 1064 2000 ]
                (square 64 1000 2000) (1000, 1936, 1064, 2000)).
  simpl in H.
  assert (1000 ≤ 1000 ∧ 1064 < 1128 ∧ 2000 < 1936 ∧ 2000 ≤ 2128); [|lia].
  apply H.
  - reflexivity.
  - apply list_elem_of_lookup. exists 1%nat. reflexivity.
  - reflexivity.
Qed.

(** C5, amended: every emitted cell lies within
    [[ix_min, ix_max + side) x [iy_min - side, iy_max)], where the bounds
    are the floored ones, and no two emitted cells overlap in area. *)
Theorem cells_within_reach_disjoint
    (side : Z) (b : bounds) (qx0 qy0 qx1 qy1 : Q) :
  0 < side →
  bounds_value b = Some (qx0, qy0, qx1, qy1) →
  ∃ polygons : list Geometry,
    grid_polygons side b = Ok polygons
    ∧ (∀ g : Geometry,
         g ∈ polygons →
         ∃ e : extent,
           int_extent g = Some e
           ∧ within_reach side
               (Qfloor qx0, Qfloor qy0, Qfloor qx1, Qfloor qy1) e)
    ∧ (∀ (p q : nat) (g1 g2 : Geometry) (e1 e2 : extent),
         p ≠ q →
         polygons !! p = Some g1 → polygons !! q = Some g2 →
         int_extent g1 = Some e1 → int_extent g2 = Some e2 →
         ¬ overlap e1 e2).
Proof.
  intros Hs Hb. apply floor_bounds_value in Hb.
  destruct (grid_polygons_floored side b _ _ _ _ Hs Hb)
    as (cols & up & _ & _ & Hp & Hca & Hua & _).
  eexists. split; [exact Hp|]. split.
  - intros g (x & y & Hx & Hy & ->)%grid_loops_elem.
    rewrite elem_of_reverse in Hy.
    eapply arithmetic_below_elem in Hx as (kx & Hkx & -> & Hx'); [|exact Hca].
    eapply arithmetic_below_elem in Hy as (ky & Hky & -> & Hy'); [|exact Hua].
    eexists. split; [apply int_extent_square; lia|].
    simpl. nia.
  - intros p q g1 g2 e1 e2. apply grid_loops_no_overlap; [assumption| |].
    + intros i j x y. eapply arithmetic_below_apart; eassumption.
    + intros i j x y. apply reverse_apart.
      intros i' j' x' y'. eapply arithmetic_below_apart; eassumption.
Qed.

Lemma cells_within_reach_disjoint_witness :
  ∃ polygons : list Geometry,
    grid_polygons 64 reference_bounds = Ok polygons
    ∧ (∀ g : Geometry,
         g ∈ polygons →
         ∃ e : extent,
           int_extent g = Some e
           ∧ within_reach 64
               (Qfloor 1000, Qfloor 2000, Qfloor 1128, Qfloor 2128) e)
    ∧ (∀ (p q : nat) (g1 g2 : Geometry) (e1 e2 : extent),
         p ≠ q →
         polygons !! p = Some g1 → polygons !! q = Some g2 →
         int_extent g1 = Some e1 → int_extent g2 = Some e2 →
         ¬ overlap e1 e2).
Proof.
  apply (cells_within_reach_disjoint 64 reference_bounds 1000 2000 1128 2128).
  - lia.
  - reflexivity.
Defined.

(** ** What makes the tiler raise *)

Lemma floor_bounds_not_finite (b : bounds) :
  bounds_value b = None →
  floor_bounds b = Raise ValueError ∨ floor_bounds b = Raise OverflowError.
Proof.
  destruct b as [[[xmin ymin] xmax] ymax]. unfold bounds_value, floor_bounds.
  destruct (Float.value xmin) eqn:Hx0;
    [rewrite (FloatFacts.int_floor_value _ _ Hx0), result_bind_ok
    |intros _; destruct (FloatFacts.int_floor_not_finite _ Hx0) as [-> | ->];
     auto].
  destruct (Float.value ymin) eqn:Hy0;
    [rewrite (FloatFacts.int_floor_value _ _ Hy0), result_bind_ok
    |intros _; destruct (FloatFacts.int_floor_not_finite _ Hy0) as [-> | ->];
     auto].
  destruct (Float.value xmax) eqn:Hx1;
    [rewrite (FloatFacts.int_floor_value _ _ Hx1), result_bind_ok
    |intros _; destruct (FloatFacts.int_floor_not_finite _ Hx1) as [-> | ->];
     auto].
  destruct (Float.value ymax) eqn:Hy1;
    [discriminate
    |intros _; destruct (FloatFacts.int_floor_not_finite _ Hy1) as [-> | ->];
     auto].
Qed.

(** C6, as the spec states it, fails: [generate_grid] on a reference
    without geometries raises the [ValueError] of [int()] on a NaN bound.
    That is a builtin error of Python; the call signals no other exception,
    so none that would be a GeometryError of the tiler's own. *)
Lemma empty_reference_geometry_error_counterexample :
  ¬ (∃ e : exception,
       e ≠ ValueError
       ∧ (generate_grid retag bounds_or_nan 1%positive
            empty_reference_heap).1 = Raise e).
Proof.
  intros (e & Hne & He). vm_compute in He. congruence.
Qed.

(** C6, amended: whenever the reference collection is empty,
    [generate_grid] signals an error and produces no grid: the [ValueError]
    of [int()] on the NaN bounds of the reprojected collection, or the
    exception of the reprojection when that fails; it has no GeometryError.
    The cell side is no input of [generate_grid] but the positive constant
    64, so that a cell side [<= 0] does not arise. *)
Theorem empty_reference_raises
    (reproject : GeoDataFrame → option string → result GeoDataFrame)
    (total_bounds : GeoDataFrame → bounds)
    (gdf : loc) (h : gmap loc GeoDataFrame) (ref : GeoDataFrame) :
  empty_has_no_box total_bounds →
  keeps_size reproject →
  h !! gdf = Some ref →
  geometry ref = [] →
  ((generate_grid reproject total_bounds gdf h).1 = Raise ValueError
   ∨ ∃ e : exception,
       reproject ref (Some "epsg:2773"%string) = Raise e
       ∧ (generate_grid reproject total_bounds gdf h).1 = Raise e)
  ∧ 0 < meters_on_side_of_acre.
Proof.
  intros Hbox Hsize Hgdf Hempty. split; [|reflexivity].
  rewrite (generate_grid_run _ _ _ _ _ Hgdf).
  destruct (reproject ref (Some "epsg:2773"%string)) as [e|meters] eqn:Hm.
  - right. exists e. split; reflexivity.
  - left. cbv zeta.
    assert (geometry meters = []) as Hnil.
    { apply length_zero_iff_nil. rewrite (Hsize _ _ _ Hm), Hempty.
      reflexivity. }
    rewrite (Hbox meters Hnil). reflexivity.
Qed.

Lemma empty_reference_raises_witness :
  ((generate_grid retag bounds_or_nan 1%positive empty_reference_heap).1
   = Raise ValueError
   ∨ ∃ e : exception,
       retag empty_reference (Some "epsg:2773"%string) = Raise e
       ∧ (generate_grid retag bounds_or_nan 1%positive
            empty_reference_heap).1 = Raise e)
  ∧ 0 < meters_on_side_of_acre.
Proof.
  apply (empty_reference_raises retag bounds_or_nan 1%positive
           empty_reference_heap empty_reference).
  - intros d Hd. unfold bounds_or_nan. rewrite Hd. reflexivity.
  - intros d d' target [= <-]. reflexivity.
  - reflexivity.
  - reflexivity.
Defined.

(** X13: when a bound of the metric bounding box is NaN or infinite,
    [generate_grid] raises the [ValueError] or the [OverflowError] of
    [int()] and returns no grid; the one object it has allocated by then is
    the reprojected copy of the reference. *)
Theorem non_finite_bound_raises
    (reproject : GeoDataFrame → option string → result GeoDataFrame)
    (total_bounds : GeoDataFrame → bounds)
    (gdf : loc) (h : gmap loc GeoDataFrame) (ref meters : GeoDataFrame) :
  h !! gdf = Some ref →
  reproject ref (Some "epsg:2773"%string) = Ok meters →
  bounds_value (total_bounds meters) = None →
  (generate_grid reproject total_bounds gdf h).2
  = <[fresh (dom h) := meters]> h
  ∧ ((generate_grid reproject total_bounds gdf h).1 = Raise ValueError
     ∨ (generate_grid reproject total_bounds gdf h).1 = Raise OverflowError).
Proof.
  intros Hgdf Hm Hb.
  rewrite (generate_grid_run _ _ _ _ _ Hgdf), Hm.
  unfold Ok. cbv zeta. unfold grid_polygons.
  destruct (floor_bounds_not_finite _ Hb) as [-> | ->];
    (split; [reflexivity|]); [left | right]; reflexivity.
Qed.

Lemma non_finite_bound_raises_witness :
  (generate_grid retag unbounded_total_bounds 1%positive reference_heap).2
  = <[fresh (dom reference_heap)
      := {| geometry := geometry reference_frame;
            crs := Some "epsg:2773"%string |}]> reference_heap
  ∧ ((generate_grid retag unbounded_total_bounds 1%positive
        reference_heap).1 = Raise ValueError
     ∨ (generate_grid retag unbounded_total_bounds 1%positive
          reference_heap).1 = Raise OverflowError).
Proof.
  apply (non_finite_bound_raises retag unbounded_total_bounds 1%positive
           reference_heap reference_frame);
    reflexivity.
Defined.

(** ** The loader *)

Section LoaderFacts.

Variable listlayers : string → result (list string).
Variable read_file : string → string → result GeoDataFrame.
Variable append_crs : option string → option string → option string.

Lemma read_layers_all (kml_file : string) (layers : list string)
    (frames : list GeoDataFrame) (gdf : GeoDataFrame) :
  Forall2 (λ layer s, read_file kml_file layer = Ok s) layers frames →
  ∃ out : GeoDataFrame,
    read_layers read_file append_crs kml_file layers gdf = Ok out
    ∧ geometry out = geometry gdf ++ mjoin (geometry <$> frames).
Proof.
  intros Hall. revert gdf.
  induction Hall as [|layer s layers frames Hs _ IH]; intros gdf.
  - exists gdf. split; [reflexivity|]. simpl. now rewrite app_nil_r.
  - destruct (IH (append append_crs gdf s)) as (out & Hout & Hgeo).
    exists out. split.
    + simpl. rewrite Hs, result_bind_ok. exact Hout.
    + rewrite Hgeo. simpl. now rewrite <- app_assoc.
Qed.

Lemma read_layers_raise (kml_file : string) (before after : list string)
    (layer : string) (e : exception) (gdf : GeoDataFrame) :
  Forall (λ l, ∃ s, read_file kml_file l = Ok s) before →
  read_file kml_file layer = Raise e →
  read_layers read_file append_crs kml_file (before ++ layer :: after) gdf
  = Raise e.
Proof.
  intros Hbefore He. revert gdf.
  induction Hbefore as [|l before [s Hs] _ IH]; intros gdf; simpl.
  - rewrite He. reflexivity.
  - rewrite Hs, result_bind_ok. apply IH.
Qed.

End LoaderFacts.

(** C7, as the spec states it, fails: on a source with zero layers the
    loader raises nothing and returns the empty frame. *)
Lemma zero_layers_raises_counterexample :
  ¬ (∀ (listlayers : string → result (list string))
       (read_file : string → string → result GeoDataFrame)
       (append_crs : option string → option string → option string)
       (kml_file : string),
       listlayers kml_file = Ok [] →
       ∃ e : exception,
         get_geo_dataframe listlayers read_file append_crs kml_file = Raise e).
Proof.
  intros H.
  destruct (H no_layers read_two_layers first_crs "property_lines.kml"%string
              eq_refl) as [e He].
  discriminate He.
Qed.

(** C7, amended: the loader raises, and returns no frame, when the source
    cannot be opened (the exception of [listlayers]) and when a layer fails
    to parse (the exception of [read_file] at the first such layer); on a
    source with zero layers it returns the empty frame. *)
Theorem loader_raises
    (listlayers : string → result (list string))
    (read_file : string → string → result GeoDataFrame)
    (append_crs : option string → option string → option string)
    (kml_file : string) :
  (∀ e : exception,
     listlayers kml_file = Raise e →
     get_geo_dataframe listlayers read_file append_crs kml_file = Raise e)
  ∧ (∀ (before after : list string) (layer : string) (e : exception),
       listlayers kml_file = Ok (before ++ layer :: after) →
       Forall (λ l, ∃ s, read_file kml_file l = Ok s) before →
       read_file kml_file layer = Raise e →
       get_geo_dataframe listlayers read_file append_crs kml_file = Raise e)
  ∧ (listlayers kml_file = Ok [] →
     get_geo_dataframe listlayers read_file append_crs kml_file
     = Ok empty_frame).
Proof.
  unfold get_geo_dataframe. split_and!.
  - intros e ->. reflexivity.
  - intros before after layer e -> Hbefore He. rewrite result_bind_ok.
    now apply read_layers_raise.
  - intros ->. reflexivity.
Qed.

Lemma loader_raises_witness :
  get_geo_dataframe cannot_open read_two_layers first_crs
    "property_lines.kml"%string
  = Raise (LibraryError "DriverError")
  ∧ get_geo_dataframe two_layers read_broken_parcels first_crs
      "property_lines.kml"%string
    = Raise (LibraryError "DriverError")
  ∧ get_geo_dataframe no_layers read_two_layers first_crs
      "property_lines.kml"%string
    = Ok empty_frame.
Proof.
  split_and!.
  - apply (loader_raises cannot_open read_two_layers first_crs
             "property_lines.kml"%string).
    reflexivity.
  - apply (loader_raises two_layers read_broken_parcels first_crs
             "property_lines.kml"%string)
      with (before := ["fences"%string]) (layer := "parcels"%string)
           (after := []).
    + reflexivity.
    + repeat constructor. exists fence_frame. reflexivity.
    + reflexivity.
  - apply (loader_raises no_layers read_two_layers first_crs
             "property_lines.kml"%string).
    reflexivity.
Defined.

(** C8: when every layer parses, the loader returns the geometries of the
    layers one after the other, in the order [listlayers] gives the layers
    and, within a layer, in the order of its frame; nothing is dropped, so
    that the size is the sum of the sizes of the layers. *)
Theorem loader_concatenates
    (listlayers : string → result (list string))
    (read_file : string → string → result GeoDataFrame)
    (append_crs : option string → option string → option string)
    (kml_file : string) (layers : list string) (frames : list GeoDataFrame) :
  listlayers kml_file = Ok layers →
  Forall2 (λ layer s, read_file kml_file layer = Ok s) layers frames →
  ∃ gdf : GeoDataFrame,
    get_geo_dataframe listlayers read_file append_crs kml_file = Ok gdf
    ∧ geometry gdf = mjoin (geometry <$> frames)
    ∧ length (geometry gdf) = sum_list (length <$> (geometry <$> frames)).
Proof.
  intros Hl Hall. unfold get_geo_dataframe. rewrite Hl, result_bind_ok.
  destruct (read_layers_all read_file append_crs kml_file layers frames
              empty_frame Hall) as (gdf & Hgdf & Hgeo).
  exists gdf. simpl in Hgeo. split_and!; [exact Hgdf | exact Hgeo |].
  rewrite Hgeo. apply length_join.
Qed.

Lemma loader_concatenates_witness :
  ∃ gdf : GeoDataFrame,
    get_geo_dataframe two_layers read_two_layers first_crs
      "property_lines.kml"%string = Ok gdf
    ∧ geometry gdf = mjoin (geometry <$> [fence_frame; reference_frame])
    ∧ length (geometry gdf)
      = sum_list (length <$> (geometry <$> [fence_frame; reference_frame])).
Proof.
  apply (loader_concatenates two_layers read_two_layers first_crs
           "property_lines.kml"%string ["fences"; "parcels"]%string).
  - reflexivity.
  - repeat constructor.
Defined.

(** * Further properties of the tiler *)

(** ** The cells leave no gap *)

(** Consecutive intervals [[lo + k s, lo + (k + 1) s]], [k < n], cover
    [[lo, lo + n s]]. *)
Lemma interval_walk (lo s p : Q) (n : nat) :
  (0 < s)%Q → (0 < n)%nat →
  (lo <= p <= lo + inject_Z (Z.of_nat n) * s)%Q →
  ∃ k : nat,
    (k < n)%nat
    ∧ (lo + inject_Z (Z.of_nat k) * s <= p
       <= lo + inject_Z (Z.of_nat (S k)) * s)%Q.
Proof.
  intros Hs Hn. induction n as [|n IH]; [lia|]. intros [Hlo Hhi].
  destruct n as [|n].
  - exists 0%nat. split; [lia|].
    change (inject_Z (Z.of_nat 0)) with 0%Q. split; [lra | exact Hhi].
  - destruct (Qlt_le_dec (lo + inject_Z (Z.of_nat (S n)) * s) p) as [Hlt|Hle].
    + exists (S n). split; [lia|]. split; [lra | exact Hhi].
    + destruct (IH ltac:(lia) (conj Hlo Hle)) as (k & Hk & Hb).
      exists k. split; [lia | exact Hb].
Qed.

(** The sequence ends at the first item not below [hi]. *)
Lemma arithmetic_below_end (lo hi side : Z) (l : list Z) :
  arithmetic_below lo hi side l → hi ≤ lo + Z.of_nat (length l) * side.
Proof.
  intros Hl.
  destruct (Z_lt_le_dec (lo + Z.of_nat (length l) * side) hi) as [H|H];
    [|exact H].
  assert (l !! length l = Some (lo + Z.of_nat (length l) * side)) as Hx
    by (apply Hl; auto).
  apply lookup_lt_Some in Hx. lia.
Qed.

Lemma arithmetic_below_covers (lo hi side : Z) (l : list Z) (p : Q) :
  0 < side → lo < hi → arithmetic_below lo hi side l →
  (inject_Z lo <= p <= inject_Z hi)%Q →
  ∃ v : Z, v ∈ l ∧ (inject_Z v <= p <= inject_Z (v + side))%Q.
Proof.
  intros Hs Hlt Hl [Hlo Hhi].
  assert (l !! 0%nat = Some lo) as H0 by (apply Hl; lia).
  pose proof (lookup_lt_Some _ _ _ H0) as Hn.
  pose proof (arithmetic_below_end _ _ _ _ Hl) as Hend.
  destruct (interval_walk (inject_Z lo) (inject_Z side) p (length l))
    as (k & Hk & Hk1 & Hk2).
  - change 0%Q with (inject_Z 0). rewrite <- Zlt_Qlt. exact Hs.
  - exact Hn.
  - split; [exact Hlo|]. eapply Qle_trans; [exact Hhi|].
    rewrite <- inject_Z_mult, <- inject_Z_plus, <- Zle_Qle. exact Hend.
  - destruct (lookup_lt_is_Some_2 l k Hk) as [v Hv].
    pose proof Hv as Hv'. apply Hl in Hv' as [-> _].
    exists (lo + Z.of_nat k * side). split; [eapply list_elem_of_lookup_2, Hv|].
    rewrite <- inject_Z_mult, <- inject_Z_plus in Hk1, Hk2.
    split; [exact Hk1|]. eapply Qle_trans; [exact Hk2|].
    rewrite <- Zle_Qle. lia.
Qed.

(** X1: for floored bounds with [ix_min < ix_max] and [iy_min < iy_max] and
    a positive cell side, every point with [ix_min <= x <= ix_max] and
    [iy_min - side <= y <= iy_max - side] lies in an emitted cell: the grid
    covers the whole floored width, and in height the band that starts one
    cell below [iy_min]. *)
Theorem grid_covers_without_gaps (side : Z) (b : bounds) (x0 y0 x1 y1 : Z) :
  0 < side →
  floor_bounds b = Ok (x0, y0, x1, y1) →
  x0 < x1 → y0 < y1 →
  ∃ polygons : list Geometry,
    grid_polygons side b = Ok polygons
    ∧ ∀ px py : Q,
        (inject_Z x0 <= px <= inject_Z x1)%Q →
        (inject_Z (y0 - side) <= py <= inject_Z (y1 - side))%Q →
        ∃ (g : Geometry) (e : extent),
          g ∈ polygons ∧ int_extent g = Some e ∧ covers e px py.
Proof.
  intros Hs Hb Hx Hy.
  destruct (grid_polygons_floored side b _ _ _ _ Hs Hb)
    as (cols & up & _ & _ & Hp & Hca & Hua & _).
  eexists. split; [exact Hp|]. intros px py Hpx Hpy.
  destruct (arithmetic_below_covers _ _ _ _ px Hs Hx Hca Hpx)
    as (vx & Hvx & Hcx).
  unfold Z.sub in Hpy. rewrite !inject_Z_plus, !inject_Z_opp in Hpy.
  destruct (arithmetic_below_covers _ _ _ _ (py + inject_Z side)%Q Hs Hy Hua)
    as (vy & Hvy & Hcy); [lra|].
  exists (square side vx vy), (vx, vy - side, vx + side, vy). split_and!.
  - apply grid_loops_elem. exists vx, vy.
    split_and!; [assumption | now apply elem_of_reverse | reflexivity].
  - apply int_extent_square. lia.
  - simpl. split; [exact Hcx|].
    unfold Z.sub. rewrite inject_Z_plus, inject_Z_opp.
    rewrite inject_Z_plus in Hcy. lra.
Qed.

Lemma grid_covers_without_gaps_witness :
  ∃ polygons : list Geometry,
    grid_polygons 64 overhang_bounds = Ok polygons
    ∧ ∀ px py : Q,
        (inject_Z 0 <= px <= inject_Z 100)%Q →
        (inject_Z (0 - 64) <= py <= inject_Z (100 - 64))%Q →
        ∃ (g : Geometry) (e : extent),
          g ∈ polygons ∧ int_extent g = Some e ∧ covers e px py.
Proof.
  apply (grid_covers_without_gaps 64 overhang_bounds 0 0 100 100);
    [lia | reflexivity | lia | lia].
Defined.

(** ** Neighbours *)

Lemma arithmetic_below_step (lo hi side : Z) (l : list Z) (i : nat) (x x' : Z) :
  arithmetic_below lo hi side l →
  l !! i = Some x → l !! S i = Some x' → x' = x + side.
Proof.
  intros Hl Hi Hi'. apply Hl in Hi as [-> _]. apply Hl in Hi' as [-> _]. lia.
Qed.

Lemma reverse_step (lo hi side : Z) (up : list Z) (j : nat) (y y' : Z) :
  arithmetic_below lo hi side up →
  reverse up !! j = Some y → reverse up !! S j = Some y' → y' = y - side.
Proof.
  intros Hl Hj Hj'.
  pose proof (lookup_lt_Some _ _ _ Hj') as Hlt. rewrite length_reverse in Hlt.
  rewrite reverse_lookup in Hj, Hj' by lia.
  replace (length up - S j)%nat with (S (length up - S (S j))) in Hj by lia.
  pose proof (arithmetic_below_step _ _ _ _ _ _ _ Hl Hj' Hj). lia.
Qed.

(** X2: the cells tile edge to edge.  The cell of the next column and the
    same row starts in x where this one ends and spans the same y; the cell
    of the same column and the next row ends in y where this one starts and
    spans the same x. *)
Theorem neighbours_share_edges (side : Z) (b : bounds) (x0 y0 x1 y1 : Z) :
  0 < side →
  floor_bounds b = Ok (x0, y0, x1, y1) →
  ∃ (cols rows : list Z) (polygons : list Geometry),
    grid_cols side (x0, y0, x1, y1) = Ok cols
    ∧ grid_rows side (x0, y0, x1, y1) = Ok rows
    ∧ grid_polygons side b = Ok polygons
    ∧ (∀ (i j : nat) (x x' y : Z),
         cols !! i = Some x → cols !! S i = Some x' → rows !! j = Some y →
         ∃ g g' : Geometry,
           polygons !! (i * length rows + j)%nat = Some g
           ∧ polygons !! (S i * length rows + j)%nat = Some g'
           ∧ int_extent g = Some (x, y - side, x + side, y)
           ∧ int_extent g' = Some (x + side, y - side, x + 2 * side, y))
    ∧ (∀ (i j : nat) (x y y' : Z),
         cols !! i = Some x → rows !! j = Some y → rows !! S j = Some y' →
         ∃ g g' : Geometry,
           polygons !! (i * length rows + j)%nat = Some g
           ∧ polygons !! (i * length rows + S j)%nat = Some g'
           ∧ int_extent g = Some (x, y - side, x + side, y)
           ∧ int_extent g' = Some (x, y - 2 * side, x + side, y - side)).
Proof.
  intros Hs Hb.
  destruct (grid_polygons_floored side b _ _ _ _ Hs Hb)
    as (cols & up & Hc & Hr & Hp & Hca & Hua & _).
  exists cols, (reverse up), (grid_loops side cols (reverse up)).
  split_and!; try assumption.
  - intros i j x x' y Hi Hi' Hj.
    rewrite (arithmetic_below_step _ _ _ _ _ _ _ Hca Hi Hi') in Hi'.
    exists (square side x y), (square side (x + side) y). split_and!.
    + apply grid_loops_lookup. exists i, j, x, y. auto.
    + apply grid_loops_lookup. exists (S i), j, (x + side), y. auto.
    + apply int_extent_square. lia.
    + rewrite int_extent_square by lia.
      now replace (x + 2 * side) with (x + side + side) by lia.
  - intros i j x y y' Hi Hj Hj'.
    rewrite (reverse_step _ _ _ _ _ _ _ Hua Hj Hj') in Hj'.
    exists (square side x y), (square side x (y - side)). split_and!.
    + apply grid_loops_lookup. exists i, j, x, y. auto.
    + apply grid_loops_lookup. exists i, (S j), x, (y - side). auto.
    + apply int_extent_square. lia.
    + rewrite int_extent_square by lia.
      now replace (y - 2 * side) with (y - side - side) by lia.
Qed.

Lemma neighbours_share_edges_witness :
  ∃ (cols rows : list Z) (polygons : list Geometry),
    grid_cols 64 (1000, 2000, 1128, 2128) = Ok cols
    ∧ grid_rows 64 (1000, 2000, 1128, 2128) = Ok rows
    ∧ grid_polygons 64 reference_bounds = Ok polygons
    ∧ (∀ (i j : nat) (x x' y : Z),
         cols !! i = Some x → cols !! S i = Some x' → rows !! j = Some y →
         ∃ g g' : Geometry,
           polygons !! (i * length rows + j)%nat = Some g
           ∧ polygons !! (S i * length rows + j)%nat = Some g'
           ∧ int_extent g = Some (x, y - 64, x + 64, y)
           ∧ int_extent g' = Some (x + 64, y - 64, x + 2 * 64, y))
    ∧ (∀ (i j : nat) (x y y' : Z),
         cols !! i = Some x → rows !! j = Some y → rows !! S j = Some y' →
         ∃ g g' : Geometry,
           polygons !! (i * length rows + j)%nat = Some g
           ∧ polygons !! (i * length rows + S j)%nat = Some g'
           ∧ int_extent g = Some (x, y - 64, x + 64, y)
           ∧ int_extent g' = Some (x, y - 2 * 64, x + 64, y - 64)).
Proof.
  apply (neighbours_share_edges 64 reference_bounds 1000 2000 1128 2128);
    [lia | reflexivity].
Defined.

(** ** The grid sits one cell low *)

(** X3: when [iy_min < iy_max], every column starts with the cell whose top
    edge [ytop] is the last row origin, [iy_max - side <= ytop < iy_max],
    and ends with the cell of origin [(x, iy_min)], which spans y from
    [iy_min - side] to [iy_min]: the lowest row of cells lies at or below
    the floored box. *)
Theorem columns_run_from_below_top_to_below_box
    (side : Z) (b : bounds) (x0 y0 x1 y1 : Z) :
  0 < side →
  floor_bounds b = Ok (x0, y0, x1, y1) →
  y0 < y1 →
  ∃ (cols rows : list Z) (polygons : list Geometry) (ytop : Z),
    grid_cols side (x0, y0, x1, y1) = Ok cols
    ∧ grid_rows side (x0, y0, x1, y1) = Ok rows
    ∧ grid_polygons side b = Ok polygons
    ∧ (0 < length rows)%nat
    ∧ y1 - side ≤ ytop < y1
    ∧ ∀ (i : nat) (x : Z),
        cols !! i = Some x →
        polygons !! (i * length rows)%nat = Some (square side x ytop)
        ∧ polygons !! (i * length rows + (length rows - 1))%nat
          = Some (square side x y0)
        ∧ int_extent (square side x y0) = Some (x, y0 - side, x + side, y0).
Proof.
  intros Hs Hb Hy.
  destruct (grid_polygons_floored side b _ _ _ _ Hs Hb)
    as (cols & up & Hc & Hr & Hp & Hca & Hua & _).
  assert (up !! 0%nat = Some y0) as H0 by (apply Hua; lia).
  pose proof (lookup_lt_Some _ _ _ H0) as Hn.
  destruct (lookup_lt_is_Some_2 up (length up - 1) ltac:(lia)) as [ytop Htop].
  pose proof Htop as Htop'. apply Hua in Htop' as [Hv Hlt].
  pose proof (arithmetic_below_end _ _ _ _ Hua) as Hend.
  exists cols, (reverse up), (grid_loops side cols (reverse up)), ytop.
  rewrite length_reverse. split_and!; try assumption; try nia.
  intros i x Hi. split_and!.
  - apply grid_loops_lookup. exists i, 0%nat, x, ytop.
    rewrite length_reverse, reverse_lookup by lia.
    split_and!; first [assumption | reflexivity | lia].
  - apply grid_loops_lookup. exists i, (length up - 1)%nat, x, y0.
    rewrite length_reverse, reverse_lookup by lia.
    replace (length up - S (length up - 1))%nat with 0%nat by lia.
    split_and!; first [assumption | reflexivity | lia].
  - apply int_extent_square. lia.
Qed.

Lemma columns_run_from_below_top_to_below_box_witness :
  ∃ (cols rows : list Z) (polygons : list Geometry) (ytop : Z),
    grid_cols 64 (1000, 2000, 1128, 2128) = Ok cols
    ∧ grid_rows 64 (1000, 2000, 1128, 2128) = Ok rows
    ∧ grid_polygons 64 reference_bounds = Ok polygons
    ∧ (0 < length rows)%nat
    ∧ 2128 - 64 ≤ ytop < 2128
    ∧ ∀ (i : nat) (x : Z),
        cols !! i = Some x →
        polygons !! (i * length rows)%nat = Some (square 64 x ytop)
        ∧ polygons !! (i * length rows + (length rows - 1))%nat
          = Some (square 64 x 2000)
        ∧ int_extent (square 64 x 2000) = Some (x, 2000 - 64, x + 64, 2000).
Proof.
  apply (columns_run_from_below_top_to_below_box 64 reference_bounds
           1000 2000 1128 2128);
    [lia | reflexivity | lia].
Defined.

(** ** Degenerate boxes *)

Lemma range_length_zero (lo hi side : Z) :
  0 < side → range_length lo hi side = 0 ↔ hi ≤ lo.
Proof.
  intros Hs. unfold range_length.
  destruct (Z.ltb_spec 0 side); [|lia].
  destruct (Z.ltb_spec lo hi); [|lia].
  assert (0 ≤ (hi - lo - 1) / side) by (apply Z.div_pos; lia). lia.
Qed.

(** X4: with a positive cell side the tiling of floored bounds raises
    nothing, and it emits no cell at all exactly when the floored box has no
    width or no height ([ix_max <= ix_min] or [iy_max <= iy_min]), as for a
    single point or a parcel within one unit. *)
Theorem empty_grid_iff_degenerate (side : Z) (b : bounds) (x0 y0 x1 y1 : Z) :
  0 < side →
  floor_bounds b = Ok (x0, y0, x1, y1) →
  ∃ polygons : list Geometry,
    grid_polygons side b = Ok polygons
    ∧ (polygons = [] ↔ x1 ≤ x0 ∨ y1 ≤ y0).
Proof.
  intros Hs Hb.
  destruct (grid_polygons_floored side b _ _ _ _ Hs Hb)
    as (cols & up & _ & _ & Hp & _ & _ & Hcl & Hul).
  eexists. split; [exact Hp|].
  rewrite <- (range_length_zero x0 x1 side Hs),
    <- (range_length_zero y0 y1 side Hs), <- Hcl, <- Hul.
  rewrite <- length_zero_iff_nil, grid_loops_length, length_reverse. nia.
Qed.

Lemma empty_grid_iff_degenerate_witness :
  ∃ polygons : list Geometry,
    grid_polygons 64 reference_bounds = Ok polygons
    ∧ (polygons = [] ↔ 1128 ≤ 1000 ∨ 2128 ≤ 2000).
Proof.
  apply (empty_grid_iff_degenerate 64 reference_bounds 1000 2000 1128 2128);
    [lia | reflexivity].
Defined.

(** * Further properties of the loader *)

Lemma read_layers_ok_inv
    (read_file : string → string → result GeoDataFrame)
    (append_crs : option string → option string → option string)
    (kml_file : string) (layers : list string) (gdf out : GeoDataFrame) :
  read_layers read_file append_crs kml_file layers gdf = Ok out →
  ∃ frames : list GeoDataFrame,
    Forall2 (λ layer s, read_file kml_file layer = Ok s) layers frames
    ∧ geometry out = geometry gdf ++ mjoin (geometry <$> frames).
Proof.
  revert gdf. induction layers as [|layer layers IH]; intros gdf; simpl.
  - intros [= <-]. exists []. split; [constructor|]. simpl.
    now rewrite app_nil_r.
  - destruct (read_file kml_file layer) as [e|s] eqn:Hs; [discriminate|].
    intros Hout. destruct (IH _ Hout) as (frames & Hall & Hgeo).
    exists (s :: frames). split; [now constructor|].
    rewrite Hgeo. simpl. now rewrite <- app_assoc.
Qed.

(** X5: the loader never returns a partial collection: when it returns a
    frame, the layers were listed, every one of them was read, and the frame
    holds the geometries of all of them, in order. *)
Theorem loader_never_partial
    (listlayers : string → result (list string))
    (read_file : string → string → result GeoDataFrame)
    (append_crs : option string → option string → option string)
    (kml_file : string) (gdf : GeoDataFrame) :
  get_geo_dataframe listlayers read_file append_crs kml_file = Ok gdf →
  ∃ (layers : list string) (frames : list GeoDataFrame),
    listlayers kml_file = Ok layers
    ∧ Forall2 (λ layer s, read_file kml_file layer = Ok s) layers frames
    ∧ geometry gdf = mjoin (geometry <$> frames).
Proof.
  unfold get_geo_dataframe.
  destruct (listlayers kml_file) as [e|layers]; [discriminate|].
  intros Hout. apply read_layers_ok_inv in Hout as (frames & Hall & Hgeo).
  exists layers, frames. auto.
Qed.

Lemma loader_never_partial_witness :
  ∃ (layers : list string) (frames : list GeoDataFrame),
    two_layers "property_lines.kml"%string = Ok layers
    ∧ Forall2 (λ layer s,
                 read_two_layers "property_lines.kml"%string layer = Ok s)
        layers frames
    ∧ geometry {| geometry := geometry fence_frame ++ geometry reference_frame;
                  crs := Some "epsg:4326"%string |}
      = mjoin (geometry <$> frames).
Proof.
  apply (loader_never_partial two_layers read_two_layers first_crs
           "property_lines.kml"%string).
  reflexivity.
Defined.

(** * Properties of the basemap registry *)

(** Induction over a provider tree, with the hypothesis for every value of
    a dict. *)
Lemma pyval_tree_ind (P : pyval → Prop) :
  (∀ s : string, P (PStr s)) →
  (∀ z : Z, P (PInt z)) →
  (∀ items : list (string * pyval),
     Forall (λ kv, P kv.2) items → P (PDict items)) →
  ∀ v : pyval, P v.
Proof.
  intros Hs Hz Hd. fix IH 1. intros [s|z|items]; [apply Hs | apply Hz |].
  apply Hd. induction items as [|[k v] items IHitems]; constructor.
  - apply IH.
  - exact IHitems.
Qed.

Lemma register_all_app (ls1 ls2 : list ((string + Z) * pyval))
    (p : gmap (string + Z) pyval) :
  register_all (ls1 ++ ls2) p = register_all ls2 (register_all ls1 p).
Proof. apply foldl_app. Qed.

Lemma register_all_snoc (ls : list ((string + Z) * pyval))
    (kv : (string + Z) * pyval) (p : gmap (string + Z) pyval) :
  register_all (ls ++ [kv]) p = <[kv.1 := kv.2]> (register_all ls p).
Proof. unfold register_all. now rewrite foldl_snoc. Qed.

Lemma last_binding_snoc (k : string + Z) (ls : list ((string + Z) * pyval))
    (kv : (string + Z) * pyval) :
  last_binding k (ls ++ [kv])
  = if decide (k = kv.1) then Some kv.2 else last_binding k ls.
Proof. unfold last_binding. now rewrite foldl_snoc. Qed.

(** The entry under [k] after registering [ls]: the last binding of [k] in
    [ls], or else what was there. *)
Lemma lookup_register_all (ls : list ((string + Z) * pyval))
    (p : gmap (string + Z) pyval) (k : string + Z) :
  register_all ls p !! k
  = match last_binding k ls with
    | Some v => Some v
    | None => p !! k
    end.
Proof.
  induction ls as [|kv ls IH] using rev_ind; [reflexivity|].
  rewrite register_all_snoc, last_binding_snoc.
  destruct (decide (k = kv.1)) as [->|Hne].
  - apply lookup_insert_eq.
  - rewrite lookup_insert_ne by congruence. exact IH.
Qed.

Lemma last_binding_elem (k : string + Z) (ls : list ((string + Z) * pyval))
    (v : pyval) :
  last_binding k ls = Some v → (k, v) ∈ ls.
Proof.
  induction ls as [|[k' v'] ls IH] using rev_ind; [discriminate|].
  rewrite last_binding_snoc, elem_of_app, list_elem_of_singleton. simpl.
  destruct (decide (k = k')) as [->|Hne]; [intros [= ->]|]; auto.
Qed.

Lemma last_binding_last (k : string + Z) (v : pyval)
    (before after : list ((string + Z) * pyval)) :
  k ∉ after.*1 → last_binding k (before ++ (k, v) :: after) = Some v.
Proof.
  induction after as [|[k' v'] after IH] using rev_ind; intros Hk.
  - rewrite last_binding_snoc. simpl. now rewrite decide_True.
  - rewrite fmap_app, not_elem_of_app in Hk. destruct Hk as [Hk Hk'].
    change (before ++ (k, v) :: after ++ [(k', v')])
      with (before ++ ((k, v) :: after) ++ [(k', v')]).
    rewrite app_assoc, last_binding_snoc. simpl.
    rewrite decide_False; [now apply IH|].
    intros ->. apply Hk'. simpl. apply list_elem_of_singleton. reflexivity.
Qed.

Lemma register_all_twice (ls : list ((string + Z) * pyval))
    (p : gmap (string + Z) pyval) :
  register_all ls (register_all ls p) = register_all ls p.
Proof.
  apply map_eq. intros k. rewrite !lookup_register_all.
  destruct (last_binding k ls); reflexivity.
Qed.

Ltac close_run :=
  simpl; split_and!; first [done | split; intros; congruence].

Lemma for_each_value_run (items : list (string * pyval)) :
  Forall (λ kv, ∀ p, run_of (get_ctx_providers kv.2 p) (leaves kv.2)
                       (registrable kv.2) p) items →
  ∀ p : gmap (string + Z) pyval,
    run_of (for_each_value get_ctx_providers items p)
      (flat_map (λ kv, leaves kv.2) items)
      (forallb (λ kv, registrable kv.2) items) p.
Proof.
  induction 1 as [|[k v] items Hv _ IH]; intros p.
  - exists [], []. close_run.
  - simpl in *. destruct (Hv p) as (done & rest & Hl & Hp & Hok & Hrest).
    destruct (get_ctx_providers v p) as [[e|] p1]; simpl in *.
    + exists done, (rest ++ flat_map (λ kv, leaves kv.2) items).
      split_and!.
      * rewrite Hl, <- app_assoc. reflexivity.
      * exact Hp.
      * split; [discriminate|].
        intros [H1 _]%andb_prop. apply Hok in H1. discriminate.
      * discriminate.
    + destruct (IH p1) as (done' & rest' & Hl' & Hp' & Hok' & Hrest').
      rewrite (Hrest eq_refl), app_nil_r in Hl. subst p1.
      exists (done ++ done'), rest'. split_and!.
      * rewrite Hl, Hl', <- app_assoc. reflexivity.
      * rewrite Hp'. symmetry. apply register_all_app.
      * rewrite Hok'. destruct Hok as [Hok _]. rewrite (Hok eq_refl).
        reflexivity.
      * exact Hrest'.
Qed.

(** What a traversal does, whatever its outcome. *)
Lemma get_ctx_providers_run (t : pyval) (p : gmap (string + Z) pyval) :
  run_of (get_ctx_providers t p) (leaves t) (registrable t) p.
Proof.
  revert p. induction t as [s|z|items IH] using pyval_tree_ind; intros p.
  - exists [], []. simpl. destruct (contains "url" s); close_run.
  - exists [], []. close_run.
  - simpl. destruct (has_key "url" items) eqn:Hurl.
    + destruct (getitem "name" items) as [[n|n|sub]|]; simpl.
      * exists [(inl n, PDict items)], []. close_run.
      * exists [(inr n, PDict items)], []. close_run.
      * exists [], []. close_run.
      * exists [], []. close_run.
    + apply for_each_value_run, IH.
Qed.

Lemma get_ctx_providers_ok (t : pyval) (p : gmap (string + Z) pyval) :
  registrable t = true →
  get_ctx_providers t p = (None, register_all (leaves t) p).
Proof.
  intros Hok.
  destruct (get_ctx_providers_run t p)
    as (done & rest & Hl & Hp & Hiff & Hrest).
  apply Hiff in Hok. rewrite (Hrest Hok), app_nil_r in Hl. subst done.
  destruct (get_ctx_providers t p) as [r p']. simpl in *. congruence.
Qed.

Lemma get_ctx_providers_lookup (t : pyval) (p : gmap (string + Z) pyval)
    (k : string + Z) :
  (get_ctx_providers t p).2 !! k = p !! k
  ∨ ∃ v : pyval,
      (get_ctx_providers t p).2 !! k = Some v ∧ (k, v) ∈ leaves t.
Proof.
  destruct (get_ctx_providers_run t p) as (done & rest & Hl & Hp & _).
  rewrite Hp, lookup_register_all.
  destruct (last_binding k done) as [v|] eqn:Hlast; [|auto].
  right. exists v. split; [reflexivity|].
  rewrite Hl, elem_of_app. left. now apply last_binding_elem.
Qed.

Lemma leaves_registered_leaf (t : pyval) (k : string + Z) (v : pyval) :
  (k, v) ∈ leaves t → registered_leaf k v.
Proof.
  induction t as [s|z|items IH] using pyval_tree_ind; simpl.
  - intros H. inversion H.
  - intros H. inversion H.
  - destruct (has_key "url" items) eqn:Hurl.
    + destruct (getitem "name" items) as [[n|n|sub]|] eqn:Hname;
        try (intros H; inversion H; fail).
      * intros [= -> ->]%list_elem_of_singleton. exists items. auto.
      * intros [= -> ->]%list_elem_of_singleton. exists items. auto.
    + rewrite list_elem_of_In, in_flat_map.
      intros ([k' t'] & Hin & Hk). rewrite Forall_forall in IH.
      apply (IH (k', t')); now apply list_elem_of_In.
Qed.

Lemma for_each_value_app
    (body : pyval → gmap (string + Z) pyval
            → option provider_exception * gmap (string + Z) pyval)
    (before after : list (string * pyval)) (p : gmap (string + Z) pyval) :
  for_each_value body (before ++ after) p
  = match for_each_value body before p with
    | (Some e, q) => (Some e, q)
    | (None, q) => for_each_value body after q
    end.
Proof.
  revert p. induction before as [|[k v] before IH]; intros p; simpl.
  - reflexivity.
  - destruct (body v p) as [[e|] q]; [reflexivity | apply IH].
Qed.

(** X6: the traversal raises nothing exactly on the trees in which every
    dict without a 'url' holds only dicts of that kind or tile providers,
    and every dict with a 'url' has a string or int 'name'; on any other
    tree it raises. *)
Theorem providers_success_iff_well_formed
    (t : pyval) (p : gmap (string + Z) pyval) :
  (get_ctx_providers t p).1 = None ↔ registrable t = true.
Proof.
  destruct (get_ctx_providers_run t p) as (done & rest & _ & _ & H & _).
  exact H.
Qed.

Lemma providers_success_iff_well_formed_witness :
  (get_ctx_providers basemaps one_provider).1 = None.
Proof.
  apply (providers_success_iff_well_formed basemaps one_provider).
  reflexivity.
Defined.

(** X7: on such a tree the registry after the call is the registry before
    it with every tile provider of the tree stored under its name, in the
    order of the items; the dicts inside a tile provider are not
    registered. *)
Theorem providers_flatten (t : pyval) (p : gmap (string + Z) pyval) :
  registrable t = true →
  get_ctx_providers t p = (None, register_all (leaves t) p).
Proof. apply get_ctx_providers_ok. Qed.

Lemma providers_flatten_witness :
  get_ctx_providers basemaps one_provider
  = (None, register_all (leaves basemaps) one_provider).
Proof.
  apply (providers_flatten basemaps one_provider). reflexivity.
Defined.

(** X8: whatever the outcome, no name is removed from the registry, and
    every entry is either what it was or a tile provider of the tree under
    its own name. *)
Theorem providers_frame (t : pyval) (p : gmap (string + Z) pyval) :
  dom p ⊆ dom (get_ctx_providers t p).2
  ∧ ∀ k : string + Z,
      (get_ctx_providers t p).2 !! k = p !! k
      ∨ ∃ v : pyval,
          (get_ctx_providers t p).2 !! k = Some v ∧ (k, v) ∈ leaves t.
Proof.
  split; [|apply get_ctx_providers_lookup].
  intros k. rewrite !elem_of_dom.
  destruct (get_ctx_providers_lookup t p k) as [-> | (v & -> & _)]; eauto.
Qed.

Lemma providers_frame_witness :
  dom one_provider ⊆ dom (get_ctx_providers basemaps one_provider).2
  ∧ ∀ k : string + Z,
      (get_ctx_providers basemaps one_provider).2 !! k = one_provider !! k
      ∨ ∃ v : pyval,
          (get_ctx_providers basemaps one_provider).2 !! k = Some v
          ∧ (k, v) ∈ leaves basemaps.
Proof. apply (providers_frame basemaps one_provider). Defined.

(** X9: if every entry of the registry is a dict with a 'url' stored under
    its own 'name', the same holds after the call, whatever the outcome. *)
Theorem providers_invariant (t : pyval) (p : gmap (string + Z) pyval) :
  (∀ (k : string + Z) (v : pyval), p !! k = Some v → registered_leaf k v) →
  ∀ (k : string + Z) (v : pyval),
    (get_ctx_providers t p).2 !! k = Some v → registered_leaf k v.
Proof.
  intros Hp k v Hk.
  destruct (get_ctx_providers_lookup t p k) as [Heq | (v' & Hv' & Hin)].
  - apply Hp. congruence.
  - apply (leaves_registered_leaf t). congruence.
Qed.

Lemma providers_invariant_witness :
  registered_leaf (inl "Esri.WorldImagery"%string)
    (tile_provider "Esri.WorldImagery"
       "https://server.arcgisonline.com/imagery/{z}/{y}/{x}").
Proof.
  apply (providers_invariant basemaps one_provider).
  - intros k v. unfold one_provider. intros [<- <-]%lookup_singleton_Some.
    eexists. split_and!; reflexivity.
  - reflexivity.
Defined.

(** X10: a second call on the same tree changes nothing: the registry
    accumulates across calls, and walking a tree again stores the same
    entries. *)
Theorem providers_idempotent (t : pyval) (p : gmap (string + Z) pyval) :
  registrable t = true →
  get_ctx_providers t (get_ctx_providers t p).2 = get_ctx_providers t p.
Proof.
  intros Hok. rewrite !get_ctx_providers_ok by assumption. simpl.
  now rewrite register_all_twice.
Qed.

Lemma providers_idempotent_witness :
  get_ctx_providers basemaps (get_ctx_providers basemaps one_provider).2
  = get_ctx_providers basemaps one_provider.
Proof.
  apply (providers_idempotent basemaps one_provider). reflexivity.
Defined.

(** X11: when several tile providers of the tree have the same name, the
    last one in the order of the items is the one registered. *)
Theorem providers_last_wins (t : pyval) (p : gmap (string + Z) pyval)
    (k : string + Z) (v : pyval)
    (before after : list ((string + Z) * pyval)) :
  registrable t = true →
  leaves t = before ++ (k, v) :: after →
  k ∉ after.*1 →
  (get_ctx_providers t p).2 !! k = Some v.
Proof.
  intros Hok Hl Hk. rewrite get_ctx_providers_ok by assumption. simpl.
  rewrite lookup_register_all, Hl, last_binding_last by assumption.
  reflexivity.
Qed.

Lemma providers_last_wins_witness :
  (get_ctx_providers mirrored_basemaps one_provider).2
    !! inl "OpenTopoMap"%string
  = Some (tile_provider "OpenTopoMap" "https://b.example/{z}").
Proof.
  apply (providers_last_wins mirrored_basemaps one_provider
           (inl "OpenTopoMap"%string)
           (tile_provider "OpenTopoMap" "https://b.example/{z}")
           [(inl "OpenTopoMap"%string,
             tile_provider "OpenTopoMap" "https://a.example/{z}")]
           []).
  - reflexivity.
  - reflexivity.
  - simpl. apply not_elem_of_nil.
Defined.

(** X12: nothing is rolled back.  In a dict without a 'url', when the
    values before a value the traversal cannot walk are all walkable, the
    call ends as the traversal of that value does, with an exception; the
    tile providers found before it stay registered, and the values after it
    are not visited. *)
Theorem providers_no_rollback
    (before : list (string * pyval)) (k : string) (bad : pyval)
    (after : list (string * pyval)) (p : gmap (string + Z) pyval) :
  has_key "url" (before ++ (k, bad) :: after) = false →
  forallb (λ kv, registrable kv.2) before = true →
  registrable bad = false →
  get_ctx_providers (PDict (before ++ (k, bad) :: after)) p
  = get_ctx_providers bad
      (register_all (flat_map (λ kv, leaves kv.2) before) p)
  ∧ (get_ctx_providers bad
       (register_all (flat_map (λ kv, leaves kv.2) before) p)).1 ≠ None.
Proof.
  intros Hurl Hbefore Hbad.
  set (q := register_all (flat_map (λ kv, leaves kv.2) before) p).
  assert (has_key "url" before = false) as Hurl'.
  { unfold has_key in *. rewrite existsb_app in Hurl.
    now apply orb_false_elim in Hurl. }
  assert (registrable (PDict before) = true) as Hb.
  { simpl. now rewrite Hurl'. }
  apply (get_ctx_providers_ok _ p) in Hb. simpl in Hb. rewrite Hurl' in Hb.
  assert ((get_ctx_providers bad q).1 ≠ None) as Hraise.
  { intros H.
    destruct (get_ctx_providers_run bad q) as (_ & _ & _ & _ & Hiff & _).
    apply Hiff in H. congruence. }
  split; [|exact Hraise].
  simpl. rewrite Hurl, for_each_value_app, Hb. simpl. fold q.
  destruct (get_ctx_providers bad q) as [[e|] q']; [reflexivity|].
  now destruct Hraise.
Qed.

Lemma providers_no_rollback_witness :
  get_ctx_providers
    (PDict ([("first", tile_provider "A" "https://a.example/{z}")]
            ++ ("note", PStr "see the docs")
               :: [("last", tile_provider "B" "https://b.example/{z}")]))
    one_provider
  = get_ctx_providers (PStr "see the docs")
      (register_all
         (flat_map (λ kv, leaves kv.2)
            [("first", tile_provider "A" "https://a.example/{z}")])
         one_provider)
  ∧ (get_ctx_providers (PStr "see the docs")
       (register_all
          (flat_map (λ kv, leaves kv.2)
             [("first", tile_provider "A" "https://a.example/{z}")])
          one_provider)).1 ≠ None.
Proof.
  apply (providers_no_rollback
           [("first", tile_provider "A" "https://a.example/{z}")]
           "note" (PStr "see the docs")
           [("last", tile_provider "B" "https://b.example/{z}")]
           one_provider);
    reflexivity.
Defined.
